(** * The Specification pattern of [specification/main.go]

    A shallow embedding of the Go program and the properties of its
    specification evaluator and of its access gate.

    The development has three layers, each translated from the source:

    - the _value_ layer: a specification is a finite tree (the closed set of
      the seven types implementing [SpecificationUser]) and [IsSatisfiedBy]
      is a function of the tree and of the entity's fields;
    - the _memory_ layer: the entity is an object in memory reached through a
      [*User] pointer, the console is a list of writes, and a handler
      [func()] is a state transformer; [IsSatisfiedBy_mem] and [checkAccess]
      are written in a small state-and-panic monad;
    - the _object_ layer: specification objects live in a heap and hold
      references to their children, as the Go structs do; [IsSatisfiedBy_heap]
      follows the references with fuel. *)

From Stdlib Require Import ZArith Ascii String List Bool Lia.
From stdpp Require Import base option list gmap strings.

Open Scope string_scope.

Set Warnings "-register-all".

(** The examples of this file use ASCII strings only; on those the Unicode
    mapping of [strings.ToLower] is never consulted, and the examples are run
    with the identity standing for it. *)

Definition asciiOnly : string -> string := fun s => s.

(** ** UTF-8 and [strings.Map]

    For a string with a byte at or above 0x80, [strings.ToLower] returns
    [strings.Map(unicode.ToLower, s)].  [strings.Map] and the UTF-8 routines
    it calls belong to the Go standard library; they are written out here as
    the library has them.  A rune is an [int32], here a [Z]. *)

Definition RuneError : Z := 0xFFFD.
Definition MaxRune : Z := 0x10FFFF.

Definition byteOf (c : ascii) : Z := Z.of_N (N_of_ascii c).

(** The conversion [byte(x)] keeps the low eight bits. *)

Definition toByte (x : Z) : ascii := ascii_of_N (Z.to_N (Z.land x 0xFF)).

(** [utf8.DecodeRuneInString]: the first rune of [s] and its width in bytes;
    [(RuneError, 0)] for the empty string and [(RuneError, 1)] for a byte that
    begins no valid encoding.  The table [first] and the accept ranges are
    written as comparisons. *)

Definition DecodeRuneInString (s : string) : Z * nat :=
  match s with
  | EmptyString => (RuneError, 0)
  | String c0 rest0 =>
      let s0 := byteOf c0 in
      if (s0 <? 0x80)%Z then (s0, 1)
      else if ((s0 <? 0xC2) || (0xF4 <? s0))%Z then (RuneError, 1)
      else
        let sz := if (s0 <? 0xE0)%Z then 2 else if (s0 <? 0xF0)%Z then 3 else 4 in
        let lo := (if s0 =? 0xE0 then 0xA0 else if s0 =? 0xF0 then 0x90 else 0x80)%Z in
        let hi := (if s0 =? 0xED then 0x9F else if s0 =? 0xF4 then 0x8F else 0xBF)%Z in
        if (String.length s <? sz)%nat then (RuneError, 1)
        else
          match rest0 with
          | EmptyString => (RuneError, 1)
          | String c1 rest1 =>
              let s1 := byteOf c1 in
              if ((s1 <? lo) || (hi <? s1))%Z then (RuneError, 1)
              else if (sz <=? 2)%nat
              then (Z.lor (Z.shiftl (Z.land s0 0x1F) 6) (Z.land s1 0x3F), 2)
              else
                match rest1 with
                | EmptyString => (RuneError, 1)
                | String c2 rest2 =>
                    let s2 := byteOf c2 in
                    if ((s2 <? 0x80) || (0xBF <? s2))%Z then (RuneError, 1)
                    else if (sz <=? 3)%nat
                    then (Z.lor (Z.lor (Z.shiftl (Z.land s0 0x0F) 12)
                                       (Z.shiftl (Z.land s1 0x3F) 6))
                                (Z.land s2 0x3F), 3)
                    else
                      match rest2 with
                      | EmptyString => (RuneError, 1)
                      | String c3 _ =>
                          let s3 := byteOf c3 in
                          if ((s3 <? 0x80) || (0xBF <? s3))%Z then (RuneError, 1)
                          else (Z.lor (Z.lor (Z.lor (Z.shiftl (Z.land s0 0x07) 18)
                                                    (Z.shiftl (Z.land s1 0x3F) 12))
                                             (Z.shiftl (Z.land s2 0x3F) 6))
                                      (Z.land s3 0x3F), 4)
                      end
                end
          end
  end.

(** [utf8.RuneLen]: the number of bytes of the encoding, [-1] for what is no
    rune. *)

Definition RuneLen (r : Z) : Z :=
  if (r <? 0)%Z then (-1)%Z
  else if (r <=? 0x7F)%Z then 1%Z
  else if (r <=? 0x7FF)%Z then 2%Z
  else if ((0xD800 <=? r) && (r <=? 0xDFFF))%Z then (-1)%Z
  else if (r <=? 0xFFFF)%Z then 3%Z
  else if (r <=? MaxRune)%Z then 4%Z
  else (-1)%Z.

(** [utf8.AppendRune], as [Builder.WriteRune] calls it: the bytes written for
    [r]; a surrogate or a value above [MaxRune] is written as [RuneError]. *)

Definition threeBytes (r : Z) : string :=
  String (toByte (Z.lor 0xE0 (Z.shiftr r 12)))
    (String (toByte (Z.lor 0x80 (Z.land (Z.shiftr r 6) 0x3F)))
       (String (toByte (Z.lor 0x80 (Z.land r 0x3F))) EmptyString)).

Definition AppendRune (r : Z) : string :=
  let i := (r mod 2 ^ 32)%Z in
  if (i <=? 0x7F)%Z then String (toByte r) EmptyString
  else if (i <=? 0x7FF)%Z then
    String (toByte (Z.lor 0xC0 (Z.shiftr r 6)))
      (String (toByte (Z.lor 0x80 (Z.land r 0x3F))) EmptyString)
  else if ((MaxRune <? i) || ((0xD800 <=? i) && (i <=? 0xDFFF)))%Z then
    threeBytes RuneError
  else if (i <=? 0xFFFF)%Z then threeBytes r
  else
    String (toByte (Z.lor 0xF0 (Z.shiftr r 18)))
      (String (toByte (Z.lor 0x80 (Z.land (Z.shiftr r 12) 0x3F)))
         (String (toByte (Z.lor 0x80 (Z.land (Z.shiftr r 6) 0x3F)))
            (String (toByte (Z.lor 0x80 (Z.land r 0x3F))) EmptyString))).

(** [s[n:]] and [s[:n]]. *)

Fixpoint dropBytes (n : nat) (s : string) : string :=
  match n, s with
  | S n, String _ rest => dropBytes n rest
  | _, _ => s
  end.

Fixpoint takeBytes (n : nat) (s : string) : string :=
  match n, s with
  | S n, String c rest => String c (takeBytes n rest)
  | _, _ => EmptyString
  end.

(** What [strings.Map] writes for one mapped rune: nothing if it is negative. *)

Definition writeMapped (r : Z) : string :=
  if (0 <=? r)%Z then AppendRune r else EmptyString.

(** The first loop of [strings.Map], over the runes of [s] from index [i]
    ([rest] is [s[i:]]): the index of the first rune that the mapping changes
    or that is an invalid byte, with the mapped rune and the width to skip;
    [None] when the loop ends without one.  Every turn consumes at least one
    byte: [fuel] counts the turns. *)

Fixpoint firstChange (fuel : nat) (mapping : Z -> Z) (i : nat) (rest : string)
  : option (nat * Z * nat) :=
  match fuel with
  | O => None
  | S fuel =>
      match rest with
      | EmptyString => None
      | String _ _ =>
          let c := fst (DecodeRuneInString rest) in
          let size := snd (DecodeRuneInString rest) in
          let r := mapping c in
          if ((r =? c) && negb (c =? RuneError))%Z
          then firstChange fuel mapping (i + size) (dropBytes size rest)
          else
            let width :=
              if (c =? RuneError)%Z then snd (DecodeRuneInString rest)
              else Z.to_nat (RuneLen c) in
            if (c =? RuneError)%Z && negb (width =? 1)%nat && (r =? c)%Z
            then firstChange fuel mapping (i + size) (dropBytes size rest)
            else Some (i, r, width)
      end
  end.

(** The second loop: every remaining rune is mapped and written. *)

Fixpoint mapRest (fuel : nat) (mapping : Z -> Z) (rest : string) : string :=
  match fuel with
  | O => EmptyString
  | S fuel =>
      match rest with
      | EmptyString => EmptyString
      | String _ _ =>
          let c := fst (DecodeRuneInString rest) in
          let size := snd (DecodeRuneInString rest) in
          writeMapped (mapping c) +:+ mapRest fuel mapping (dropBytes size rest)
      end
  end.

(** [strings.Map]: the string itself when the first loop finds nothing to
    change; otherwise the bytes before the change, the mapped rune, and the
    second loop over what follows. *)

Definition Map (mapping : Z -> Z) (s : string) : string :=
  match firstChange (String.length s) mapping 0 s with
  | None => s
  | Some (i, r, width) =>
      takeBytes i s +:+ writeMapped r
        +:+ mapRest (String.length s) mapping (dropBytes (i + width) s)
  end.

(** [unicode.ToLower] on the runes the examples meet: the letters [A] to [Z]
    go to [a] to [z]; a rune without a lower-case form, [RuneError] for one,
    stays.  The Unicode tables for the other letters are not part of this
    file. *)

Definition lowerLatin (r : Z) : Z :=
  if ((65 <=? r) && (r <=? 90))%Z then (r + 32)%Z else r.

(** Two names of one byte each, [0xff] and [0xfe]: neither is valid UTF-8. *)

Definition xFF : string := String (ascii_of_nat 255) EmptyString.
Definition xFE : string := String (ascii_of_nat 254) EmptyString.

Section Specification.

(** ** Strings

    A Go [string] is a sequence of bytes: [string] over [ascii] (8 bits).
    [len] counts bytes. *)

Definition len (s : string) : Z := Z.of_nat (String.length s).

(** [strings.ToLower] belongs to the Go standard library, not to this
    repository.  Its ASCII path is written out: a string whose bytes are all
    below [utf8.RuneSelf] (0x80) has each byte in ['A'..'Z'] moved to
    ['a'..'z'].  Any other string is mapped rune by rune through the Unicode
    tables ([strings.Map(unicode.ToLower, s)]); that mapping is the section's
    variable, and [Map] above, applied to [unicode.ToLower], is what the
    library takes for it. *)

Variable MapToLower : string -> string.

Definition RuneSelf : nat := 128.

Definition isUpper (c : ascii) : bool :=
  (65 <=? nat_of_ascii c)%nat && (nat_of_ascii c <=? 90)%nat.

Definition lowerByte (c : ascii) : ascii :=
  if isUpper c then ascii_of_nat (nat_of_ascii c + 32) else c.

Fixpoint isASCII (s : string) : bool :=
  match s with
  | EmptyString => true
  | String c rest => (nat_of_ascii c <? RuneSelf)%nat && isASCII rest
  end.

Fixpoint lowerBytes (s : string) : string :=
  match s with
  | EmptyString => EmptyString
  | String c rest => String (lowerByte c) (lowerBytes rest)
  end.

Definition ToLower (s : string) : string :=
  if isASCII s then lowerBytes s else MapToLower s.

(** Equality of two byte strings up to the case of ASCII letters, written
    without [ToLower]: the strings have the same length and, position by
    position, the bytes are equal or are the two cases of one letter. *)

Definition sameLetter (a b : ascii) : bool :=
  Ascii.eqb a b
  || (isUpper a && (nat_of_ascii b =? nat_of_ascii a + 32)%nat)
  || (isUpper b && (nat_of_ascii a =? nat_of_ascii b + 32)%nat).

Fixpoint equalIgnoreCase (s t : string) : bool :=
  match s, t with
  | EmptyString, EmptyString => true
  | String a s', String b t' => sameLetter a b && equalIgnoreCase s' t'
  | _, _ => false
  end.

(** ** The entity

    [type UserType int] with three named constants; any other [int] is a
    value of the type too.  The program only compares integers, so the width
    of [int] plays no part and [Z] stands for it. *)

Definition UserType := Z.

Definition Personal : UserType := 0%Z.
Definition Admin : UserType := 1%Z.
Definition SuperAdmin : UserType := 2%Z.

(** [type User struct { Type; Name; Locked }].  The fields carry a [u] prefix:
    [Type] is reserved, and [Name] and [Locked] are also a constructor
    function and a predefined rule of the program. *)

Record User := mkUser { uType : UserType; uName : string; uLocked : bool }.

(** The map literal [names] of [User.String]; a missing key reads as the
    empty string. *)

Definition names (t : UserType) : string :=
  if (t =? Personal)%Z then "PERSONAL"
  else if (t =? Admin)%Z then "ADMIN"
  else if (t =? SuperAdmin)%Z then "SUPER ADMIN"
  else "".

(** The verb [%t] and, for a boolean, [%v]. *)

Definition fmtBool (b : bool) : string := if b then "true" else "false".

(** [func (u User) String() string]:
    [fmt.Sprintf("%s (Type:%v Locked:%t)", u.Name, names[u.Type], u.Locked)]. *)

Definition String_ (u : User) : string :=
  uName u +:+ " (Type:" +:+ names (uType u) +:+ " Locked:" +:+ fmtBool (uLocked u) +:+ ")".

(** ** Specifications, value layer

    One constructor per type implementing [SpecificationUser], with the
    struct's fields. *)

Inductive SpecificationUser : Type :=
| AndSpecification (specs : list SpecificationUser)
| OrSpecification (specs : list SpecificationUser)
| NotSpecification (spec : SpecificationUser)
| TypeSpecification (typ : UserType)
| NameLengthSpecification (l : Z)
| NameSpecification (name : string)
| LockedSpecification.

(** The constructor functions of the program. *)

Definition And (specs : list SpecificationUser) : SpecificationUser :=
  AndSpecification specs.

Definition Or (specs : list SpecificationUser) : SpecificationUser :=
  OrSpecification specs.

Definition Not (spec : SpecificationUser) : SpecificationUser :=
  NotSpecification spec.

Definition NameShort (l : Z) : SpecificationUser :=
  NameLengthSpecification l.

Definition Name (name : string) : SpecificationUser :=
  NameSpecification (ToLower name).

(** The seven [IsSatisfiedBy] methods.  The two [for ... range] loops return
    from inside the loop: [allSatisfied] and [anySatisfied] are those loops
    over the remaining children. *)

Fixpoint IsSatisfiedBy (s : SpecificationUser) (u : User) : bool :=
  match s with
  | AndSpecification specs =>
      (fix allSatisfied (l : list SpecificationUser) : bool :=
         match l with
         | [] => true
         | s :: rest =>
             if negb (IsSatisfiedBy s u) then false else allSatisfied rest
         end) specs
  | OrSpecification specs =>
      (fix anySatisfied (l : list SpecificationUser) : bool :=
         match l with
         | [] => false
         | s :: rest =>
             if IsSatisfiedBy s u then true else anySatisfied rest
         end) specs
  | NotSpecification spec => negb (IsSatisfiedBy spec u)
  | TypeSpecification typ => (typ =? uType u)%Z
  | NameLengthSpecification l => (len (uName u) <=? l)%Z
  | NameSpecification name => String.eqb (ToLower (uName u)) name
  | LockedSpecification => uLocked u
  end.

(** Predefined rules. *)

Definition IsPersonal := TypeSpecification Personal.
Definition IsAdmin := TypeSpecification Admin.
Definition IsSuperAdmin := TypeSpecification SuperAdmin.

Definition AnyAdmin := Or [IsAdmin; IsSuperAdmin].
Definition NotAdmin := Not AnyAdmin.
Definition NotSuperAdmin := Not IsSuperAdmin.

Definition IsNameShort4 := NameShort 4%Z.

Definition Locked := LockedSpecification.
Definition NotLocked := Not Locked.

Definition ValidNameNotAdmin := And [Not AnyAdmin; NotLocked; Not IsNameShort4].

Definition UserIsSatisfiedBy (u : User) (spec : SpecificationUser) : bool :=
  IsSatisfiedBy spec u.

(** ** Memory layer

    A [*User] is an address; the objects allocated so far are the map [users].
    No object lives at [nil], nor at any address outside the map, and reading
    a field through such a pointer panics.  [stdout] is the sequence of writes
    to the console. *)

Definition ptr := positive.

Record State := mkState { users : gmap ptr User; stdout : list string }.

(** A handler [func()] takes nothing and returns nothing: whatever it does, it
    does to the state, entities included, for a closure may have captured a
    pointer.  Handlers are taken to return. *)

Definition Handler := State -> State.

(** [calls] counts the invocations of handlers.  It is not part of the
    program's state and no handler can reach it. *)

Record World := mkWorld { state : State; calls : nat }.

Inductive Outcome (A : Type) : Type :=
| Returned (a : A) (w : World)
| Panicked.

#[global] Arguments Returned {A} a w.
#[global] Arguments Panicked {A}.

Definition M (A : Type) : Type := World -> Outcome A.

Definition ret {A : Type} (a : A) : M A := fun w => Returned a w.

Definition bind {A B : Type} (m : M A) (k : A -> M B) : M B :=
  fun w => match m w with
           | Returned a w' => k a w'
           | Panicked => Panicked
           end.

Notation "x <- m ;; k" := (bind m (fun x => k))
  (at level 62, m at next level, right associativity).
Notation "m ;;; k" := (bind m (fun _ => k))
  (at level 62, right associativity).

(** [*u]: the object the pointer refers to. *)

Definition deref (u : ptr) : M User :=
  fun w => match users (state w) !! u with
           | Some x => Returned x w
           | None => Panicked
           end.

(** [&User{...}]: a fresh object. *)

Definition new (x : User) : M ptr :=
  fun w =>
    let u := fresh (dom (users (state w))) in
    Returned u (mkWorld (mkState (<[u := x]> (users (state w))) (stdout (state w)))
                        (calls w)).

Definition write (text : string) : M unit :=
  fun w => Returned tt (mkWorld (mkState (users (state w)) (stdout (state w) ++ [text]))
                                (calls w)).

(** [handler()]. *)

Definition call (handler : Handler) : M unit :=
  fun w => Returned tt (mkWorld (handler (state w)) (S (calls w))).

Definition newline : string := String (ascii_of_nat 10) EmptyString.

(** A [*User] under the verbs [%v] and [%s]: [fmt] calls the [String] method
    of the object; for a nil pointer it recovers from the panic of that call
    and writes ["<nil>"]. *)

Definition fmtUser (u : ptr) : M string :=
  fun w => match users (state w) !! u with
           | Some x => Returned (String_ x) w
           | None => Returned "<nil>" w
           end.

(** [error]: [nil], or the error made by [fmt.Errorf] with its message. *)

Definition error := option string.

(** The methods again, each reading the entity through the pointer. *)

Fixpoint IsSatisfiedBy_mem (s : SpecificationUser) (u : ptr) : M bool :=
  match s with
  | AndSpecification specs =>
      (fix allSatisfied (l : list SpecificationUser) : M bool :=
         match l with
         | [] => ret true
         | s :: rest =>
             ok <- IsSatisfiedBy_mem s u ;;
             if negb ok then ret false else allSatisfied rest
         end) specs
  | OrSpecification specs =>
      (fix anySatisfied (l : list SpecificationUser) : M bool :=
         match l with
         | [] => ret false
         | s :: rest =>
             ok <- IsSatisfiedBy_mem s u ;;
             if ok then ret true else anySatisfied rest
         end) specs
  | NotSpecification spec =>
      ok <- IsSatisfiedBy_mem spec u ;; ret (negb ok)
  | TypeSpecification typ =>
      x <- deref u ;; ret (typ =? uType x)%Z
  | NameLengthSpecification l =>
      x <- deref u ;; ret (len (uName x) <=? l)%Z
  | NameSpecification name =>
      x <- deref u ;; ret (String.eqb (ToLower (uName x)) name)
  | LockedSpecification =>
      x <- deref u ;; ret (uLocked x)
  end.

Definition UserIsSatisfiedBy_mem (u : ptr) (spec : SpecificationUser) : M bool :=
  IsSatisfiedBy_mem spec u.

(** [checkAccess] returns the gate, a closure over [spec], [name] and
    [handler]. *)

Definition checkAccess (spec : SpecificationUser) (name : string) (handler : Handler)
  : ptr -> M error :=
  fun user =>
    ok <- IsSatisfiedBy_mem spec user ;;
    if negb ok then
      who <- fmtUser user ;;
      ret (Some (name +:+ ": access denied, user: " +:+ who))
    else
      who <- fmtUser user ;;
      write (name +:+ ": access granted, user: " +:+ who +:+ newline) ;;;
      call handler ;;;
      ret None.

(** [fmt.Println] of a string, as the handlers of [main] use it. *)

Definition Println (text : string) : Handler :=
  fun st => mkState (users st) (stdout st ++ [text +:+ newline]).

(** [if err := gate(user); err != nil { fmt.Println(err) }]. *)

Definition printIfError (gate : ptr -> M error) (user : ptr) : M unit :=
  err <- gate user ;;
  match err with
  | Some msg => write (msg +:+ newline)
  | None => ret tt
  end.

Definition main : M unit :=
  user <- new (mkUser Admin "Alex" false) ;;
  supAdmin <- new (mkUser SuperAdmin "SuperAlex" false) ;;
  who <- fmtUser user ;;
  ok <- UserIsSatisfiedBy_mem user AnyAdmin ;;
  write (who +:+ ": Any Admin? " +:+ fmtBool ok +:+ newline) ;;;
  who <- fmtUser user ;;
  ok <- UserIsSatisfiedBy_mem user IsSuperAdmin ;;
  write (who +:+ ": Any SuperAdmin? " +:+ fmtBool ok +:+ newline) ;;;
  let handlerSecret :=
    checkAccess IsSuperAdmin "high level" (Println "execute handlerSecret") in
  printIfError handlerSecret user ;;;
  printIfError handlerSecret supAdmin ;;;
  BooFooLocked <- new (mkUser Personal "BooFooLocked" true) ;;
  BooFoo <- new (mkUser Personal "BooFoo" false) ;;
  let handlerOnlyValidUser :=
    checkAccess ValidNameNotAdmin "onlyValidUser" (Println "execute handlerOnlyValidUser") in
  printIfError handlerOnlyValidUser user ;;;
  printIfError handlerOnlyValidUser BooFooLocked ;;;
  printIfError handlerOnlyValidUser BooFoo.

Definition initialWorld : World := mkWorld (mkState ∅ []) 0.

(** The state after the gate has written its "access granted" line for the
    entity [x]. *)

Definition grantedState (name : string) (x : User) (st : State) : State :=
  mkState (users st)
          (stdout st ++ [name +:+ ": access granted, user: " +:+ String_ x +:+ newline]).

(** A handler that captured the pointer to an entity and locks the entity:
    [func() { user.Locked = true }]. *)

Definition lockUser (user : ptr) : Handler :=
  fun st => mkState (alter (fun x => mkUser (uType x) (uName x) true) user (users st))
                    (stdout st).

(** The entities of [main]. *)

Definition Alex : User := mkUser Admin "Alex" false.
Definition SuperAlex : User := mkUser SuperAdmin "SuperAlex" false.
Definition BooFooLocked : User := mkUser Personal "BooFooLocked" true.
Definition BooFoo : User := mkUser Personal "BooFoo" false.

(** The world of [main] once its four entities are allocated. *)

Definition mainUsers : gmap ptr User :=
  <[4%positive := BooFoo]> (<[3%positive := BooFooLocked]>
    (<[2%positive := SuperAlex]> (<[1%positive := Alex]> ∅))).

Definition mainWorld : World := mkWorld (mkState mainUsers []) 0.

(** ** Object layer

    [And], [Or] and [Not] return pointers to structs whose fields hold
    interface values: references to other specification objects.  The heap is
    the list of the objects allocated so far and a reference is an index into
    it; the nil interface, and any index outside the heap, refers to no object
    and a method call through it panics. *)

Abbreviation ref := nat.

Inductive Object : Type :=
| AndObject (specs : list ref)
| OrObject (specs : list ref)
| NotObject (spec : ref)
| TypeObject (typ : UserType)
| NameLengthObject (l : Z)
| NameObject (name : string)
| LockedObject.

Abbreviation Heap := (list Object).

Definition alloc (o : Object) (h : Heap) : Heap * ref := ((h ++ [o])%list, List.length h).

Definition And_heap (specs : list ref) := alloc (AndObject specs).
Definition Or_heap (specs : list ref) := alloc (OrObject specs).
Definition Not_heap (spec : ref) := alloc (NotObject spec).
Definition NameShort_heap (l : Z) := alloc (NameLengthObject l).
Definition Name_heap (name : string) := alloc (NameObject (ToLower name)).

Inductive Result : Type :=
| Value (b : bool)
| Panic
| OutOfFuel.

(** The two [for ... range] loops, over the method call on a child. *)

Fixpoint allSatisfied_heap (call : ref -> Result) (l : list ref) : Result :=
  match l with
  | [] => Value true
  | s :: rest =>
      match call s with
      | Value ok => if negb ok then Value false else allSatisfied_heap call rest
      | stuck => stuck
      end
  end.

Fixpoint anySatisfied_heap (call : ref -> Result) (l : list ref) : Result :=
  match l with
  | [] => Value false
  | s :: rest =>
      match call s with
      | Value ok => if ok then Value true else anySatisfied_heap call rest
      | stuck => stuck
      end
  end.

(** Dynamic dispatch on the object found at the reference; one unit of fuel
    per method call. *)

Fixpoint IsSatisfiedBy_heap (fuel : nat) (h : Heap) (s : ref) (u : User) : Result :=
  match fuel with
  | O => OutOfFuel
  | S fuel =>
      match h !! s with
      | None => Panic
      | Some (AndObject specs) =>
          allSatisfied_heap (fun s => IsSatisfiedBy_heap fuel h s u) specs
      | Some (OrObject specs) =>
          anySatisfied_heap (fun s => IsSatisfiedBy_heap fuel h s u) specs
      | Some (NotObject spec) =>
          match IsSatisfiedBy_heap fuel h spec u with
          | Value ok => Value (negb ok)
          | stuck => stuck
          end
      | Some (TypeObject typ) => Value (typ =? uType u)%Z
      | Some (NameLengthObject l) => Value (len (uName u) <=? l)%Z
      | Some (NameObject name) => Value (String.eqb (ToLower (uName u)) name)
      | Some LockedObject => Value (uLocked u)
      end
  end.

(** The references an object holds. *)

Definition children (o : Object) : list ref :=
  match o with
  | AndObject specs | OrObject specs => specs
  | NotObject spec => [spec]
  | _ => []
  end.

(** A heap built bottom-up: every object was allocated by a leaf literal or by
    a combinator applied to references of objects that existed already. *)

Inductive BuiltBottomUp : Heap -> Prop :=
| built_empty : BuiltBottomUp []
| built_alloc (h : Heap) (o : Object) :
    BuiltBottomUp h ->
    Forall (fun s => s < List.length h) (children o) ->
    BuiltBottomUp (fst (alloc o h)).

(** The same, as a check that runs: the object at index [i] refers below
    [i]. *)

Fixpoint refersBelow (i : nat) (h : Heap) : bool :=
  match h with
  | [] => true
  | o :: rest => forallb (fun s => (s <? i)%nat) (children o) && refersBelow (S i) rest
  end.

Definition builtBottomUpb (h : Heap) : bool := refersBelow 0 h.

(** The tree of a reference: the value-layer specification the object and
    its descendants amount to. *)

Fixpoint treeOf (fuel : nat) (h : Heap) (s : ref) : option SpecificationUser :=
  match fuel with
  | O => None
  | S fuel =>
      match h !! s with
      | None => None
      | Some (AndObject specs) =>
          AndSpecification <$> mapM (treeOf fuel h) specs
      | Some (OrObject specs) =>
          OrSpecification <$> mapM (treeOf fuel h) specs
      | Some (NotObject spec) => NotSpecification <$> treeOf fuel h spec
      | Some (TypeObject typ) => Some (TypeSpecification typ)
      | Some (NameLengthObject l) => Some (NameLengthSpecification l)
      | Some (NameObject name) => Some (NameSpecification name)
      | Some LockedObject => Some LockedSpecification
      end
  end.

(** What is known of a reference once its object and the objects below it
    are understood: it has a tree, and evaluating through the reference gives
    the value of [IsSatisfiedBy] on that tree, whatever the fuel above the
    reference. *)
Definition understood (h : Heap) (s : ref) : Prop :=
  exists t : SpecificationUser,
    (forall fuel, s < fuel -> treeOf fuel h s = Some t)
    /\ (forall u fuel, s < fuel ->
        IsSatisfiedBy_heap fuel h s u = Value (IsSatisfiedBy t u)).

(** The [var] block of the program, allocation by allocation.  [AnyAdmin] and
    [NotLocked] are shared: [ValidNameNotAdmin] refers to the same objects. *)

Definition globals : Heap :=
  let h := [] in
  let '(h, IsPersonal) := alloc (TypeObject Personal) h in
  let '(h, IsAdmin) := alloc (TypeObject Admin) h in
  let '(h, IsSuperAdmin) := alloc (TypeObject SuperAdmin) h in
  let '(h, AnyAdmin) := Or_heap [IsAdmin; IsSuperAdmin] h in
  let '(h, NotAdmin) := Not_heap AnyAdmin h in
  let '(h, NotSuperAdmin) := Not_heap IsSuperAdmin h in
  let '(h, IsNameShort4) := NameShort_heap 4%Z h in
  let '(h, Locked) := alloc LockedObject h in
  let '(h, NotLocked) := Not_heap Locked h in
  let '(h, notAnyAdmin) := Not_heap AnyAdmin h in
  let '(h, notShort) := Not_heap IsNameShort4 h in
  let '(h, ValidNameNotAdmin) := And_heap [notAnyAdmin; NotLocked; notShort] h in
  h.

Definition ValidNameNotAdmin_ref : ref := 11.

(** ** Auxiliary notions for the further properties *)

(** [s] is a suffix of [t]. *)

Fixpoint isSuffix (s t : string) : bool :=
  String.eqb s t
  || match t with
     | EmptyString => false
     | String _ t' => isSuffix s t'
     end.

(** The types that have a name in [User.String]. *)

Definition namedType (t : UserType) : Prop :=
  t = Personal \/ t = Admin \/ t = SuperAdmin.

(** What [User.String] writes after the name. *)

Definition afterName (u : User) : string :=
  " (Type:" +:+ names (uType u) +:+ " Locked:" +:+ fmtBool (uLocked u) +:+ ")".

(** The nine writes of [main]. *)

Definition mainLines : list string :=
  [ "Alex (Type:ADMIN Locked:false): Any Admin? true" +:+ newline;
    "Alex (Type:ADMIN Locked:false): Any SuperAdmin? false" +:+ newline;
    "high level: access denied, user: Alex (Type:ADMIN Locked:false)" +:+ newline;
    "high level: access granted, user: SuperAlex (Type:SUPER ADMIN Locked:false)"
      +:+ newline;
    "execute handlerSecret" +:+ newline;
    "onlyValidUser: access denied, user: Alex (Type:ADMIN Locked:false)" +:+ newline;
    "onlyValidUser: access denied, user: BooFooLocked (Type:PERSONAL Locked:true)"
      +:+ newline;
    "onlyValidUser: access granted, user: BooFoo (Type:PERSONAL Locked:false)"
      +:+ newline;
    "execute handlerOnlyValidUser" +:+ newline ].

(** * Properties *)

(** ** The value layer *)

(** The loop of [AndSpecification.IsSatisfiedBy] is a conjunction over the
    children, that of [OrSpecification.IsSatisfiedBy] a disjunction. *)

Lemma And_forallb (specs : list SpecificationUser) (u : User) :
  IsSatisfiedBy (AndSpecification specs) u = forallb (fun p => IsSatisfiedBy p u) specs.
Proof.
  simpl. induction specs as [|p rest IH]; simpl; [reflexivity|].
  rewrite <- IH. destruct (IsSatisfiedBy p u); reflexivity.
Qed.

Lemma Or_existsb (specs : list SpecificationUser) (u : User) :
  IsSatisfiedBy (OrSpecification specs) u = existsb (fun p => IsSatisfiedBy p u) specs.
Proof.
  simpl. induction specs as [|p rest IH]; simpl; [reflexivity|].
  rewrite <- IH. destruct (IsSatisfiedBy p u); reflexivity.
Qed.

(** C2.  [And(P1..Pn).IsSatisfiedBy(u)] is true exactly when every child's
    [IsSatisfiedBy(u)] is true; with no child it is true. *)
Theorem And_IsSatisfiedBy (specs : list SpecificationUser) (u : User) :
  (IsSatisfiedBy (And specs) u = true <->
   Forall (fun p => IsSatisfiedBy p u = true) specs)
  /\ IsSatisfiedBy (And []) u = true.
Proof.
  split; [|reflexivity].
  unfold And. rewrite And_forallb, forallb_forall, List.Forall_forall.
  reflexivity.
Qed.

(** C3.  [Or(P1..Pn).IsSatisfiedBy(u)] is true exactly when some child's
    [IsSatisfiedBy(u)] is true; with no child it is false. *)
Theorem Or_IsSatisfiedBy (specs : list SpecificationUser) (u : User) :
  (IsSatisfiedBy (Or specs) u = true <->
   Exists (fun p => IsSatisfiedBy p u = true) specs)
  /\ IsSatisfiedBy (Or []) u = false.
Proof.
  split; [|reflexivity].
  unfold Or. rewrite Or_existsb, existsb_exists, List.Exists_exists.
  reflexivity.
Qed.

(** C4.  [Not(P)] negates [P], and [Not(Not(P))] agrees with [P] on every
    entity. *)
Theorem Not_Not_IsSatisfiedBy (P : SpecificationUser) (u : User) :
  IsSatisfiedBy (Not (Not P)) u = IsSatisfiedBy P u
  /\ IsSatisfiedBy (Not P) u = negb (IsSatisfiedBy P u).
Proof.
  split; simpl; [apply negb_involutive | reflexivity].
Qed.

(** C7.  [NameShort(l)] is satisfied exactly when the number of bytes of the
    entity's name is at most [l]. *)
Theorem NameShort_IsSatisfiedBy (l : Z) (u : User) :
  IsSatisfiedBy (NameShort l) u = true <->
  (Z.of_nat (String.length (uName u)) <= l)%Z.
Proof.
  simpl. unfold len. apply Z.leb_le.
Qed.

Lemma ValidNameNotAdmin_unfold (u : User) :
  IsSatisfiedBy ValidNameNotAdmin u =
  negb ((Admin =? uType u)%Z || (SuperAdmin =? uType u)%Z)
  && negb (uLocked u) && negb (len (uName u) <=? 4)%Z.
Proof.
  cbn -[Z.eqb Z.leb len].
  destruct (Admin =? uType u)%Z, (SuperAdmin =? uType u)%Z, (uLocked u),
    (len (uName u) <=? 4)%Z; reflexivity.
Qed.

(** C10.  [ValidNameNotAdmin] is satisfied exactly by the entities whose type
    is neither [Admin] nor [SuperAdmin] (whatever else it is), that are not
    locked and whose name is longer than 4 bytes. *)
Theorem ValidNameNotAdmin_IsSatisfiedBy (u : User) :
  IsSatisfiedBy ValidNameNotAdmin u = true <->
  uType u <> Admin /\ uType u <> SuperAdmin /\ uLocked u = false
  /\ (4 < len (uName u))%Z.
Proof.
  rewrite ValidNameNotAdmin_unfold.
  rewrite !andb_true_iff, !negb_true_iff, orb_false_iff, !Z.eqb_neq, Z.leb_gt.
  unfold Admin, SuperAdmin. intuition congruence.
Qed.

(** *** Case-insensitive names *)

Lemma lowerByte_nat (c : ascii) :
  nat_of_ascii (lowerByte c) =
  if isUpper c then nat_of_ascii c + 32 else nat_of_ascii c.
Proof.
  unfold lowerByte. destruct (isUpper c) eqn:U; [|reflexivity].
  apply nat_ascii_embedding.
  unfold isUpper in U. apply andb_true_iff in U as [_ U].
  apply Nat.leb_le in U. lia.
Qed.

Lemma nat_of_ascii_inj (a b : ascii) : nat_of_ascii a = nat_of_ascii b -> a = b.
Proof.
  intros E. rewrite <- (ascii_nat_embedding a), <- (ascii_nat_embedding b).
  now rewrite E.
Qed.

(** Two bytes have the same lower-case form exactly when they are the same
    letter in the sense of [sameLetter]. *)
Lemma lowerByte_sameLetter (a b : ascii) :
  lowerByte a = lowerByte b <-> sameLetter a b = true.
Proof.
  unfold sameLetter.
  rewrite !orb_true_iff, !andb_true_iff, !Nat.eqb_eq, Ascii.eqb_eq.
  assert (I : lowerByte a = lowerByte b <->
              nat_of_ascii (lowerByte a) = nat_of_ascii (lowerByte b)).
  { split; [intros ->; reflexivity | apply nat_of_ascii_inj]. }
  assert (J : a = b <-> nat_of_ascii a = nat_of_ascii b).
  { split; [intros ->; reflexivity | apply nat_of_ascii_inj]. }
  rewrite I, J, !lowerByte_nat. unfold isUpper.
  generalize (nat_of_ascii a) (nat_of_ascii b). intros n m.
  destruct (Nat.leb_spec 65 n), (Nat.leb_spec n 90),
    (Nat.leb_spec 65 m), (Nat.leb_spec m 90); simpl;
    intuition (try discriminate; try lia).
Qed.

Lemma lowerBytes_equalIgnoreCase (s t : string) :
  lowerBytes s = lowerBytes t <-> equalIgnoreCase s t = true.
Proof.
  revert t. induction s as [|a s IH]; intros [|b t]; simpl;
    try (split; [discriminate | discriminate]); [tauto|].
  rewrite andb_true_iff, <- IH, <- lowerByte_sameLetter.
  split; [intros E; injection E; auto | intros [-> ->]; reflexivity].
Qed.

(** Whatever the mapping of the strings that are not ASCII, [Name(s)] is
    satisfied by [u] exactly when [u]'s name and [s] have the same lower-case
    form; for ASCII strings that is equality up to the case of the letters. *)
Theorem Name_IsSatisfiedBy (s : string) (u : User) :
  (IsSatisfiedBy (Name s) u = true <-> ToLower (uName u) = ToLower s)
  /\ (isASCII s = true -> isASCII (uName u) = true ->
      (IsSatisfiedBy (Name s) u = true <-> equalIgnoreCase (uName u) s = true))
  /\ (uName u = "alex" -> IsSatisfiedBy (Name "Alex") u = true)
  /\ (uName u = "Alex" -> IsSatisfiedBy (Name "alex") u = true).
Proof.
  assert (G : IsSatisfiedBy (Name s) u = true <-> ToLower (uName u) = ToLower s).
  { simpl. apply String.eqb_eq. }
  split; [exact G|]. split; [|split].
  - intros As Au. rewrite G. unfold ToLower. rewrite As, Au.
    apply lowerBytes_equalIgnoreCase.
  - intros E. simpl. rewrite E. reflexivity.
  - intros E. simpl. rewrite E. reflexivity.
Qed.

(** ** The memory layer *)

(** Induction on a specification with the hypothesis for every child of a
    combinator. *)
Lemma SpecificationUser_children_ind (P : SpecificationUser -> Prop)
  (HAnd : forall specs, Forall P specs -> P (AndSpecification specs))
  (HOr : forall specs, Forall P specs -> P (OrSpecification specs))
  (HNot : forall spec, P spec -> P (NotSpecification spec))
  (HType : forall typ, P (TypeSpecification typ))
  (HLength : forall l, P (NameLengthSpecification l))
  (HName : forall name, P (NameSpecification name))
  (HLocked : P LockedSpecification) :
  forall s, P s.
Proof.
  fix IH 1. intros [specs|specs|spec|typ|l|name|].
  - apply HAnd. induction specs as [|p rest IHl]; constructor; [apply IH | exact IHl].
  - apply HOr. induction specs as [|p rest IHl]; constructor; [apply IH | exact IHl].
  - apply HNot, IH.
  - apply HType.
  - apply HLength.
  - apply HName.
  - apply HLocked.
Qed.

(** Through a pointer to an entity, a method returns what the value layer
    computes from the entity's fields, and leaves the world as it was. *)
Lemma IsSatisfiedBy_mem_value (s : SpecificationUser) (user : ptr) (x : User) (w : World) :
  users (state w) !! user = Some x ->
  IsSatisfiedBy_mem s user w = Returned (IsSatisfiedBy s x) w.
Proof.
  intros Hx. induction s as [specs IH|specs IH|spec IH|typ|l|name|]
    using SpecificationUser_children_ind.
  - simpl. induction IH as [|p rest Hp _ IHrest]; [reflexivity|].
    unfold bind in *. rewrite Hp.
    destruct (IsSatisfiedBy p x); simpl; [exact IHrest | reflexivity].
  - simpl. induction IH as [|p rest Hp _ IHrest]; [reflexivity|].
    unfold bind in *. rewrite Hp.
    destruct (IsSatisfiedBy p x); simpl; [reflexivity | exact IHrest].
  - simpl. unfold bind. rewrite IH. reflexivity.
  - simpl. unfold bind, deref. rewrite Hx. reflexivity.
  - simpl. unfold bind, deref. rewrite Hx. reflexivity.
  - simpl. unfold bind, deref. rewrite Hx. reflexivity.
  - simpl. unfold bind, deref. rewrite Hx. reflexivity.
Qed.

Lemma checkAccess_denied spec name handler user x w :
  users (state w) !! user = Some x ->
  IsSatisfiedBy spec x = false ->
  checkAccess spec name handler user w =
  Returned (Some (name +:+ ": access denied, user: " +:+ String_ x)) w.
Proof.
  intros Hx Hs. unfold checkAccess, bind.
  rewrite (IsSatisfiedBy_mem_value _ _ _ _ Hx), Hs. simpl.
  unfold fmtUser. rewrite Hx. reflexivity.
Qed.

Lemma checkAccess_granted spec name handler user x w :
  users (state w) !! user = Some x ->
  IsSatisfiedBy spec x = true ->
  checkAccess spec name handler user w =
  Returned None (mkWorld (handler (grantedState name x (state w))) (S (calls w))).
Proof.
  intros Hx Hs. unfold checkAccess, bind.
  rewrite (IsSatisfiedBy_mem_value _ _ _ _ Hx), Hs. simpl.
  unfold fmtUser. rewrite Hx. reflexivity.
Qed.

(** C1.  Applied to a pointer to the entity [x], the gate made by
    [checkAccess spec name handler]
    - when [spec] is not satisfied by [x], returns the access-denied error
      whose message carries [name] and [x.String()], in an unchanged world:
      nothing is written and the count of handler calls is the same;
    - when [spec] is satisfied by [x], returns [nil]; the count of handler
      calls has grown by exactly one and the state is what one run of
      [handler] makes of the state after the "access granted" line. *)
Theorem checkAccess_gate spec name handler user x w :
  users (state w) !! user = Some x ->
  (IsSatisfiedBy spec x = false ->
   checkAccess spec name handler user w =
   Returned (Some (name +:+ ": access denied, user: " +:+ String_ x)) w)
  /\ (IsSatisfiedBy spec x = true ->
      checkAccess spec name handler user w =
      Returned None (mkWorld (handler (grantedState name x (state w))) (S (calls w)))).
Proof.
  intros Hx. split; intros Hs.
  - now apply checkAccess_denied.
  - now apply checkAccess_granted.
Qed.

(** C6.  For the entity of type [Admin] named "Alex", not locked:
    [Or(IsAdmin, IsSuperAdmin)] is satisfied and [IsSuperAdmin] is not; a gate
    made with [checkAccess(IsSuperAdmin, ...)] returns an error for it, and for
    an entity of type [SuperAdmin] returns [nil], having called the handler. *)
Theorem Admin_Alex_example :
  IsSatisfiedBy (Or [IsAdmin; IsSuperAdmin]) Alex = true
  /\ IsSatisfiedBy IsSuperAdmin Alex = false
  /\ (forall name handler user w,
        users (state w) !! user = Some Alex ->
        checkAccess IsSuperAdmin name handler user w =
        Returned (Some (name +:+ ": access denied, user: Alex (Type:ADMIN Locked:false)")) w)
  /\ (forall name handler user w x,
        uType x = SuperAdmin ->
        users (state w) !! user = Some x ->
        checkAccess IsSuperAdmin name handler user w =
        Returned None (mkWorld (handler (grantedState name x (state w))) (S (calls w)))).
Proof.
  split; [reflexivity|]. split; [reflexivity|]. split.
  - intros name handler user w Hx.
    now rewrite (checkAccess_denied _ name handler _ _ _ Hx).
  - intros name handler user w x Ht Hx.
    apply checkAccess_granted; [exact Hx|]. simpl. rewrite Ht. reflexivity.
Qed.

(** C9, as the program has it.  Evaluating a specification through a pointer
    to an entity changes nothing.  A gate writes no entity itself: when access
    is denied the whole world is unchanged; when access is granted, the
    entities afterwards are those the handler leaves, so the entity is
    unchanged whenever the handler does not write it. *)
Theorem entity_unchanged spec name handler user x w :
  users (state w) !! user = Some x ->
  IsSatisfiedBy_mem spec user w = Returned (IsSatisfiedBy spec x) w
  /\ (IsSatisfiedBy spec x = false ->
      exists err, checkAccess spec name handler user w = Returned (Some err) w)
  /\ (IsSatisfiedBy spec x = true ->
      exists w', checkAccess spec name handler user w = Returned None w'
        /\ users (state w') = users (handler (grantedState name x (state w)))
        /\ (users (handler (grantedState name x (state w))) !! user = Some x ->
            users (state w') !! user = Some x)).
Proof.
  intros Hx. split; [now apply IsSatisfiedBy_mem_value|]. split; intros Hs.
  - eexists. exact (checkAccess_denied _ name handler _ _ _ Hx Hs).
  - eexists. split; [exact (checkAccess_granted _ name handler _ _ _ Hx Hs)|].
    simpl. split; [reflexivity | trivial].
Qed.

(** ** The object layer *)

(** In a heap built bottom-up every object refers to objects allocated
    before it. *)
Lemma BuiltBottomUp_children (h : Heap) :
  BuiltBottomUp h ->
  forall s o, h !! s = Some o -> Forall (fun c => c < s) (children o).
Proof.
  induction 1 as [|h o Hh IH Ho]; intros s o' Hs.
  - discriminate.
  - change (fst (alloc o h)) with (h ++ [o])%list in Hs.
    destruct (decide (s < List.length h)) as [Lt|Ge].
    + rewrite lookup_app_l in Hs by exact Lt. eauto.
    + rewrite lookup_app_r in Hs by lia.
      destruct (s - List.length h) as [|k] eqn:E; simpl in Hs; [|discriminate].
      injection Hs as <-. assert (s = List.length h) as -> by lia. exact Ho.
Qed.

Lemma refersBelow_snoc (h : Heap) (o : Object) (i : nat) :
  refersBelow i (h ++ [o]) =
  refersBelow i h && forallb (fun s => (s <? i + List.length h)%nat) (children o).
Proof.
  revert i. induction h as [|o' h IH]; intros i; simpl.
  - rewrite Nat.add_0_r, andb_true_r. reflexivity.
  - rewrite IH, andb_assoc, Nat.add_succ_r. reflexivity.
Qed.

Lemma builtBottomUpb_sound (h : Heap) :
  builtBottomUpb h = true -> BuiltBottomUp h.
Proof.
  unfold builtBottomUpb. induction h as [|o h IH] using rev_ind; intros Hb.
  - constructor.
  - rewrite refersBelow_snoc in Hb. apply andb_true_iff in Hb as [Hh Ho].
    apply (built_alloc h o (IH Hh)).
    apply List.Forall_forall. intros c Hc.
    rewrite forallb_forall in Ho. specialize (Ho c Hc).
    apply Nat.ltb_lt in Ho. exact Ho.
Qed.

Lemma understood_children (h : Heap) (l : list ref) :
  Forall (understood h) l ->
  exists ts : list SpecificationUser,
    (forall fuel, Forall (fun c => c < fuel) l ->
       mapM (treeOf fuel h) l = Some ts)
    /\ (forall u fuel, Forall (fun c => c < fuel) l ->
        allSatisfied_heap (fun s => IsSatisfiedBy_heap fuel h s u) l
        = Value (IsSatisfiedBy (AndSpecification ts) u)
        /\ anySatisfied_heap (fun s => IsSatisfiedBy_heap fuel h s u) l
           = Value (IsSatisfiedBy (OrSpecification ts) u)).
Proof.
  induction 1 as [|c rest (t & Ht & Hv) _ (ts & Hts & Hvs)].
  - exists []. split; [reflexivity | intros; split; reflexivity].
  - exists (t :: ts). split.
    + intros fuel Hf. apply Forall_cons in Hf as [Hc Hrest].
      simpl. rewrite (Ht _ Hc). simpl. rewrite (Hts _ Hrest). reflexivity.
    + intros u fuel Hf. apply Forall_cons in Hf as [Hc Hrest].
      destruct (Hvs u fuel Hrest) as [HA HO].
      cbn [allSatisfied_heap anySatisfied_heap]. rewrite (Hv u _ Hc), HA, HO.
      simpl. destruct (IsSatisfiedBy t u); split; reflexivity.
Qed.

Lemma BuiltBottomUp_understood (h : Heap) :
  BuiltBottomUp h -> forall s, s < List.length h -> understood h s.
Proof.
  intros Hh s. induction (lt_wf s) as [s _ IH]. intros Hs.
  destruct (lookup_lt_is_Some_2 h s Hs) as [o Ho].
  pose proof (BuiltBottomUp_children h Hh s o Ho) as Hc.
  assert (Hu : Forall (understood h) (children o)).
  { eapply Forall_impl; [exact Hc|]. intros c Lt. simpl in Lt. apply IH; [exact Lt | lia]. }
  assert (Hfuel : forall fuel, s < S fuel -> Forall (fun c => c < fuel) (children o)).
  { intros fuel Lt. eapply Forall_impl; [exact Hc|]. simpl. intros c ?. lia. }
  destruct o as [specs|specs|spec|typ|l|name|]; simpl in Hu, Hfuel.
  - destruct (understood_children h specs Hu) as (ts & Hts & Hvs).
    exists (AndSpecification ts). split.
    + intros [|fuel] Lt; [lia|]. cbn [treeOf]. rewrite Ho, (Hts _ (Hfuel _ Lt)). reflexivity.
    + intros u [|fuel] Lt; [lia|]. cbn [IsSatisfiedBy_heap]. rewrite Ho.
      apply (Hvs u fuel (Hfuel _ Lt)).
  - destruct (understood_children h specs Hu) as (ts & Hts & Hvs).
    exists (OrSpecification ts). split.
    + intros [|fuel] Lt; [lia|]. cbn [treeOf]. rewrite Ho, (Hts _ (Hfuel _ Lt)). reflexivity.
    + intros u [|fuel] Lt; [lia|]. cbn [IsSatisfiedBy_heap]. rewrite Ho.
      apply (Hvs u fuel (Hfuel _ Lt)).
  - apply Forall_cons in Hu as [(t & Ht & Hv) _].
    exists (NotSpecification t). split.
    + intros [|fuel] Lt; [lia|]. specialize (Hfuel _ Lt).
      apply Forall_cons in Hfuel as [Hc' _].
      cbn [treeOf]. rewrite Ho, (Ht _ Hc'). reflexivity.
    + intros u [|fuel] Lt; [lia|]. specialize (Hfuel _ Lt).
      apply Forall_cons in Hfuel as [Hc' _].
      cbn [IsSatisfiedBy_heap]. rewrite Ho, (Hv u _ Hc'). reflexivity.
  - exists (TypeSpecification typ).
    split; [intros [|fuel] Lt | intros u [|fuel] Lt]; try lia; cbn [treeOf IsSatisfiedBy_heap]; now rewrite Ho.
  - exists (NameLengthSpecification l).
    split; [intros [|fuel] Lt | intros u [|fuel] Lt]; try lia; cbn [treeOf IsSatisfiedBy_heap]; now rewrite Ho.
  - exists (NameSpecification name).
    split; [intros [|fuel] Lt | intros u [|fuel] Lt]; try lia; cbn [treeOf IsSatisfiedBy_heap]; now rewrite Ho.
  - exists LockedSpecification.
    split; [intros [|fuel] Lt | intros u [|fuel] Lt]; try lia; cbn [treeOf IsSatisfiedBy_heap]; now rewrite Ho.
Qed.

(** C8.  In a heap built bottom-up from leaf objects and the combinators,
    evaluating [IsSatisfiedBy] through any reference on any entity ends: with
    more fuel than the reference's index it returns a boolean, the same for
    every such amount of fuel, never a panic; that boolean is the value of
    [IsSatisfiedBy] on the finite tree the reference stands for, and it is
    what the methods return, without panic and in an unchanged world, when
    they read the entity through a pointer. *)
Theorem IsSatisfiedBy_terminates (h : Heap) (s : ref) (u : User) :
  BuiltBottomUp h ->
  s < List.length h ->
  exists b : bool,
    (forall fuel, s < fuel -> IsSatisfiedBy_heap fuel h s u = Value b)
    /\ exists t : SpecificationUser,
         treeOf (S s) h s = Some t
         /\ IsSatisfiedBy t u = b
         /\ forall user w, users (state w) !! user = Some u ->
                           IsSatisfiedBy_mem t user w = Returned b w.
Proof.
  intros Hh Hs.
  destruct (BuiltBottomUp_understood h Hh s Hs) as (t & Ht & Hv).
  exists (IsSatisfiedBy t u). split.
  - intros fuel Lt. apply Hv, Lt.
  - exists t. split; [apply Ht; lia|]. split; [reflexivity|].
    intros user w Hu. now apply IsSatisfiedBy_mem_value.
Qed.

(** * Further properties of the evaluator *)

(** ** Combinators as a Boolean algebra *)

(** X1.  De Morgan: negating a conjunction is the disjunction of the negated
    children, and negating a disjunction is the conjunction of the negated
    children, on every entity. *)
Theorem Not_And_Or (specs : list SpecificationUser) (u : User) :
  IsSatisfiedBy (Not (And specs)) u = IsSatisfiedBy (Or (map Not specs)) u
  /\ IsSatisfiedBy (Not (Or specs)) u = IsSatisfiedBy (And (map Not specs)) u.
Proof.
  unfold Not, And, Or.
  change (IsSatisfiedBy (NotSpecification (AndSpecification specs)) u)
    with (negb (IsSatisfiedBy (AndSpecification specs) u)).
  change (IsSatisfiedBy (NotSpecification (OrSpecification specs)) u)
    with (negb (IsSatisfiedBy (OrSpecification specs) u)).
  rewrite !And_forallb, !Or_existsb.
  induction specs as [|p rest [IHa IHo]]; [split; reflexivity|].
  cbn [map forallb existsb]. rewrite negb_andb, negb_orb, IHa, IHo.
  split; reflexivity.
Qed.

(** X2.  A combinator over a concatenation of children is the combinator over
    the two combinators of the parts, and a combinator with one child is that
    child: nesting [And] in [And], or [Or] in [Or], changes nothing. *)
Theorem And_Or_nesting (ps qs : list SpecificationUser) (p : SpecificationUser)
  (u : User) :
  IsSatisfiedBy (And (ps ++ qs)) u = IsSatisfiedBy (And [And ps; And qs]) u
  /\ IsSatisfiedBy (Or (ps ++ qs)) u = IsSatisfiedBy (Or [Or ps; Or qs]) u
  /\ IsSatisfiedBy (And [p]) u = IsSatisfiedBy p u
  /\ IsSatisfiedBy (Or [p]) u = IsSatisfiedBy p u.
Proof.
  unfold And, Or. rewrite !And_forallb, !Or_existsb.
  cbn [forallb existsb]. rewrite !And_forallb, !Or_existsb.
  rewrite forallb_app, existsb_app, !andb_true_r, !orb_false_r.
  repeat split; reflexivity.
Qed.

(** X3.  The order of the children does not matter: although the loops stop
    at the first deciding child, a permutation of the children gives the same
    answer. *)
Theorem And_Or_Permutation (ps qs : list SpecificationUser) (u : User) :
  Permutation ps qs ->
  IsSatisfiedBy (And ps) u = IsSatisfiedBy (And qs) u
  /\ IsSatisfiedBy (Or ps) u = IsSatisfiedBy (Or qs) u.
Proof.
  intros HP. unfold And, Or. rewrite !And_forallb, !Or_existsb.
  induction HP as [|p ps qs _ [IHa IHo]|p q ps|ps qs rs _ [IH1a IH1o] _ [IH2a IH2o]];
    cbn [forallb existsb].
  - split; reflexivity.
  - rewrite IHa, IHo. split; reflexivity.
  - split.
    + rewrite !andb_assoc, (andb_comm (IsSatisfiedBy q u)). reflexivity.
    + rewrite !orb_assoc, (orb_comm (IsSatisfiedBy q u)). reflexivity.
  - split; congruence.
Qed.

(** ** The predefined type rules *)

(** X5.  [IsPersonal], [IsAdmin] and [IsSuperAdmin] exclude one another;
    [NotAdmin] is the negation of [AnyAdmin]; and [NotAdmin] is weaker than
    [IsPersonal]: it is satisfied, besides the personal entities, exactly by
    the entities whose type is none of the three constants. *)
Theorem type_rules (u : User) :
  IsSatisfiedBy IsPersonal u && IsSatisfiedBy IsAdmin u = false
  /\ IsSatisfiedBy IsPersonal u && IsSatisfiedBy IsSuperAdmin u = false
  /\ IsSatisfiedBy IsAdmin u && IsSatisfiedBy IsSuperAdmin u = false
  /\ IsSatisfiedBy AnyAdmin u = IsSatisfiedBy IsAdmin u || IsSatisfiedBy IsSuperAdmin u
  /\ IsSatisfiedBy NotAdmin u = negb (IsSatisfiedBy AnyAdmin u)
  /\ (IsSatisfiedBy NotAdmin u = true /\ IsSatisfiedBy IsPersonal u = false <->
      uType u <> Personal /\ uType u <> Admin /\ uType u <> SuperAdmin).
Proof.
  unfold NotAdmin, AnyAdmin, IsPersonal, IsAdmin, IsSuperAdmin, Not, Or.
  change (IsSatisfiedBy (NotSpecification ?s) u) with (negb (IsSatisfiedBy s u)).
  rewrite Or_existsb. cbn -[Z.eqb].
  unfold Personal, Admin, SuperAdmin.
  destruct (Z.eqb_spec 0 (uType u)), (Z.eqb_spec 1 (uType u)),
    (Z.eqb_spec 2 (uType u)); cbn; repeat split; try congruence; try lia;
    intuition congruence.
Qed.

(** ** Names *)

(** X8.  Matching by [Name] is an equivalence of names that ignores the other
    fields: every entity satisfies the rule made from its own name; the rule
    made from [a] accepts the name [b] exactly when the rule made from [b]
    accepts the name [a]; and if [a] accepts [b] and [b] accepts [c] then [a]
    accepts [c]. *)
Theorem Name_equivalence (a b c : string) (t t' : UserType) (k k' : bool)
  (u : User) :
  IsSatisfiedBy (Name (uName u)) u = true
  /\ IsSatisfiedBy (Name a) (mkUser t b k) = IsSatisfiedBy (Name b) (mkUser t' a k')
  /\ (IsSatisfiedBy (Name a) (mkUser t b k) = true ->
      IsSatisfiedBy (Name b) (mkUser t c k) = true ->
      IsSatisfiedBy (Name a) (mkUser t' c k') = true).
Proof.
  cbn [IsSatisfiedBy Name uName]. split; [apply String.eqb_refl|]. split.
  - apply String.eqb_sym.
  - rewrite !String.eqb_eq. congruence.
Qed.

(** X9.  [NameShort] grows with its threshold: a name short for [l] is short
    for every larger threshold.  Below zero no entity is accepted, and at zero
    only the empty name is. *)
Theorem NameShort_thresholds (l l' : Z) (u : User) :
  ((l <= l')%Z -> IsSatisfiedBy (NameShort l) u = true ->
   IsSatisfiedBy (NameShort l') u = true)
  /\ ((l < 0)%Z -> IsSatisfiedBy (NameShort l) u = false)
  /\ (IsSatisfiedBy (NameShort 0) u = true <-> uName u = "").
Proof.
  cbn [IsSatisfiedBy NameShort]. unfold len. rewrite !Z.leb_le.
  split; [lia|]. split.
  - intros Hl. apply Z.leb_gt. lia.
  - destruct (uName u) as [|ch rest]; cbn [String.length]; split;
      try reflexivity; try discriminate; lia.
Qed.

(** ** Early return *)

(** X4.  The loops return at the first deciding child and never call the
    children after it: a conjunction whose children evaluate to true up to a
    child that evaluates to false is false, and a disjunction whose children
    evaluate to false up to a child that evaluates to true is true, whatever
    the remaining references are, nil and cyclic ones included. *)
Theorem early_return (fuel : nat) (h : Heap) (s c : ref) (pre rest : list ref)
  (u : User) :
  (h !! s = Some (AndObject (pre ++ c :: rest)) ->
   Forall (fun p => IsSatisfiedBy_heap fuel h p u = Value true) pre ->
   IsSatisfiedBy_heap fuel h c u = Value false ->
   IsSatisfiedBy_heap (S fuel) h s u = Value false)
  /\ (h !! s = Some (OrObject (pre ++ c :: rest)) ->
      Forall (fun p => IsSatisfiedBy_heap fuel h p u = Value false) pre ->
      IsSatisfiedBy_heap fuel h c u = Value true ->
      IsSatisfiedBy_heap (S fuel) h s u = Value true).
Proof.
  split; intros Hs Hpre Hc; cbn [IsSatisfiedBy_heap]; rewrite Hs; clear Hs;
    induction Hpre as [|p pre Hp _ IH]; cbn [app allSatisfied_heap anySatisfied_heap].
  - rewrite Hc. reflexivity.
  - rewrite Hp. exact IH.
  - rewrite Hc. reflexivity.
  - rewrite Hp. exact IH.
Qed.

(** ** Allocation *)

Lemma allSatisfied_heap_ext (f g : ref -> Result) (l : list ref) :
  Forall (fun s => f s = g s) l ->
  allSatisfied_heap f l = allSatisfied_heap g l
  /\ anySatisfied_heap f l = anySatisfied_heap g l.
Proof.
  induction 1 as [|s rest Hs _ [IHa IHo]]; [split; reflexivity|].
  cbn [allSatisfied_heap anySatisfied_heap]. rewrite Hs, IHa, IHo.
  split; reflexivity.
Qed.

Lemma mapM_treeOf_ext (f g : ref -> option SpecificationUser) (l : list ref) :
  Forall (fun s => f s = g s) l -> mapM f l = mapM g l.
Proof.
  induction 1 as [|s rest Hs _ IH]; [reflexivity|].
  cbn [mapM]. rewrite Hs, IH. reflexivity.
Qed.

(** X10.  Allocating one more object changes nothing for the objects that
    exist: in a heap built bottom-up, every reference evaluates after the
    allocation as it did before, on every entity and with every amount of
    fuel. *)
Theorem alloc_frame (h : Heap) (o : Object) (fuel : nat) (s : ref) (u : User) :
  BuiltBottomUp h ->
  s < List.length h ->
  IsSatisfiedBy_heap fuel (fst (alloc o h)) s u = IsSatisfiedBy_heap fuel h s u.
Proof.
  intros Hh. change (fst (alloc o h)) with (h ++ [o])%list.
  revert s. induction fuel as [|fuel IH]; intros s Hs; [reflexivity|].
  cbn [IsSatisfiedBy_heap]. rewrite (lookup_app_l h [o] s Hs).
  destruct (h !! s) as [o'|] eqn:Ho; [|reflexivity].
  pose proof (BuiltBottomUp_children h Hh s o' Ho) as Hc.
  assert (Hsame : Forall (fun c => IsSatisfiedBy_heap fuel (h ++ [o]) c u
                                   = IsSatisfiedBy_heap fuel h c u) (children o')).
  { eapply Forall_impl; [exact Hc|]. intros c Lt. simpl in Lt. apply IH. lia. }
  destruct o' as [specs|specs|spec|typ|l|name|]; cbn [children] in Hsame;
    try reflexivity.
  - apply (allSatisfied_heap_ext _ _ _ Hsame).
  - apply (allSatisfied_heap_ext _ _ _ Hsame).
  - apply Forall_cons in Hsame as [-> _]. reflexivity.
Qed.

Lemma alloc_frame_tree (h : Heap) (o : Object) (fuel : nat) (s : ref) :
  BuiltBottomUp h ->
  s < List.length h ->
  treeOf fuel (h ++ [o]) s = treeOf fuel h s.
Proof.
  intros Hh. revert s. induction fuel as [|fuel IH]; intros s Hs; [reflexivity|].
  cbn [treeOf]. rewrite (lookup_app_l h [o] s Hs).
  destruct (h !! s) as [o'|] eqn:Ho; [|reflexivity].
  pose proof (BuiltBottomUp_children h Hh s o' Ho) as Hc.
  assert (Hsame : Forall (fun c => treeOf fuel (h ++ [o]) c = treeOf fuel h c)
                         (children o')).
  { eapply Forall_impl; [exact Hc|]. intros c Lt. simpl in Lt. apply IH. lia. }
  destruct o' as [specs|specs|spec|typ|l|name|]; cbn [children] in Hsame;
    try reflexivity.
  - rewrite (mapM_treeOf_ext _ _ _ Hsame). reflexivity.
  - rewrite (mapM_treeOf_ext _ _ _ Hsame). reflexivity.
  - apply Forall_cons in Hsame as [-> _]. reflexivity.
Qed.

(** The trees of a list of understood references, read with any fuel above
    them. *)
Lemma children_trees (h : Heap) (l : list ref) :
  Forall (understood h) l ->
  exists ts : list SpecificationUser,
    Forall2 (fun s t => treeOf (S s) h s = Some t) l ts
    /\ forall fuel, Forall (fun c => c < fuel) l -> mapM (treeOf fuel h) l = Some ts.
Proof.
  induction 1 as [|c rest (t & Ht & _) _ (ts & Hts & Hm)].
  - exists []. split; [constructor | reflexivity].
  - exists (t :: ts). split.
    + constructor; [apply Ht; lia | exact Hts].
    + intros fuel Hf. apply Forall_cons in Hf as [Hc Hrest].
      cbn [mapM]. rewrite (Ht _ Hc). simpl. rewrite (Hm _ Hrest). reflexivity.
Qed.

(** X12.  The constructor functions build the trees of the value layer.  In a
    heap built bottom-up, [And] and [Or] applied to existing references
    return a reference whose tree is [And], respectively [Or], of the
    children's trees; [Not] applied to an existing reference returns one whose
    tree is [Not] of the child's tree; [NameShort] and [Name] return leaves,
    [Name] with the lower-cased name. *)
Theorem constructors_build_trees (h : Heap) (specs : list ref) (s : ref) (l : Z)
  (name : string) :
  BuiltBottomUp h ->
  (Forall (fun c => c < List.length h) specs ->
   exists ts : list SpecificationUser,
     Forall2 (fun c t => treeOf (S c) h c = Some t) specs ts
     /\ treeOf (S (snd (And_heap specs h))) (fst (And_heap specs h))
          (snd (And_heap specs h)) = Some (And ts)
     /\ treeOf (S (snd (Or_heap specs h))) (fst (Or_heap specs h))
          (snd (Or_heap specs h)) = Some (Or ts))
  /\ (s < List.length h ->
      exists t : SpecificationUser,
        treeOf (S s) h s = Some t
        /\ treeOf (S (snd (Not_heap s h))) (fst (Not_heap s h))
             (snd (Not_heap s h)) = Some (Not t))
  /\ treeOf (S (snd (NameShort_heap l h))) (fst (NameShort_heap l h))
       (snd (NameShort_heap l h)) = Some (NameShort l)
  /\ treeOf (S (snd (Name_heap name h))) (fst (Name_heap name h))
       (snd (Name_heap name h)) = Some (Name name).
Proof.
  intros Hh.
  assert (Hnew : forall o : Object, (h ++ [o])%list !! List.length h = Some o).
  { intros o. rewrite lookup_app_r by lia. rewrite Nat.sub_diag. reflexivity. }
  unfold And_heap, Or_heap, Not_heap, NameShort_heap, Name_heap, alloc.
  cbn [fst snd treeOf]. rewrite !Hnew.
  split; [|split; [|split; reflexivity]].
  - intros Hspecs.
    assert (Hu : Forall (understood h) specs).
    { eapply Forall_impl; [exact Hspecs|]. intros c Lt.
      apply (BuiltBottomUp_understood h Hh c Lt). }
    destruct (children_trees h specs Hu) as (ts & Hts & Hm).
    exists ts. split; [exact Hts|].
    assert (Hframe : forall o,
               mapM (treeOf (List.length h) (h ++ [o])%list) specs = Some ts).
    { intros o. rewrite <- (Hm _ Hspecs). apply mapM_treeOf_ext.
      eapply Forall_impl; [exact Hspecs|]. intros c Lt.
      apply (alloc_frame_tree h o _ c Hh Lt). }
    rewrite !Hframe. split; reflexivity.
  - intros Hs.
    destruct (BuiltBottomUp_understood h Hh s Hs) as (t & Ht & _).
    exists t. split; [exact (Ht (S s) (Nat.lt_succ_diag_r s))|].
    rewrite (alloc_frame_tree h _ _ s Hh Hs), (Ht _ Hs). reflexivity.
Qed.

(** ** The nil pointer *)

(** X11.  Whatever the pointer, an evaluation that returns leaves the world
    as it was.  Through a pointer to no entity, nil for one, an evaluation
    that returns has read no field: its answer is the one every entity would
    get. *)
Theorem IsSatisfiedBy_mem_returns (s : SpecificationUser) (user : ptr) (w w' : World)
  (b : bool) :
  IsSatisfiedBy_mem s user w = Returned b w' ->
  w' = w
  /\ (users (state w) !! user = None -> forall x : User, IsSatisfiedBy s x = b).
Proof.
  destruct (users (state w) !! user) as [x|] eqn:Hx.
  - rewrite (IsSatisfiedBy_mem_value s user x w Hx). intros [= <- <-].
    split; [reflexivity | discriminate].
  - revert b w'.
    induction s as [specs IH|specs IH|spec IH|typ|l|name|]
      using SpecificationUser_children_ind; intros b w';
      try (cbn [IsSatisfiedBy_mem]; unfold bind, deref; rewrite Hx; discriminate).
    + cbn [IsSatisfiedBy_mem IsSatisfiedBy].
      induction IH as [|p rest Hp _ IHrest].
      * intros [= <- <-]. split; [reflexivity | intros _ x; reflexivity].
      * unfold bind in *. destruct (IsSatisfiedBy_mem p user w) as [ok w1|] eqn:Hr;
          [|discriminate].
        destruct (Hp ok w1 eq_refl) as [-> Hval]. specialize (Hval eq_refl).
        destruct ok; cbn [negb].
        -- intros Hrest. destruct (IHrest Hrest) as [-> Hall].
           split; [reflexivity|]. intros _ x. rewrite Hval. apply Hall, eq_refl.
        -- intros [= <- <-]. split; [reflexivity|]. intros _ x.
           rewrite Hval. reflexivity.
    + cbn [IsSatisfiedBy_mem IsSatisfiedBy].
      induction IH as [|p rest Hp _ IHrest].
      * intros [= <- <-]. split; [reflexivity | intros _ x; reflexivity].
      * unfold bind in *. destruct (IsSatisfiedBy_mem p user w) as [ok w1|] eqn:Hr;
          [|discriminate].
        destruct (Hp ok w1 eq_refl) as [-> Hval]. specialize (Hval eq_refl).
        destruct ok.
        -- intros [= <- <-]. split; [reflexivity|]. intros _ x.
           rewrite Hval. reflexivity.
        -- intros Hrest. destruct (IHrest Hrest) as [-> Hall].
           split; [reflexivity|]. intros _ x. rewrite Hval. apply Hall, eq_refl.
    + cbn [IsSatisfiedBy_mem IsSatisfiedBy]. unfold bind.
      destruct (IsSatisfiedBy_mem spec user w) as [ok w1|] eqn:Hr; [|discriminate].
      destruct (IH ok w1 eq_refl) as [-> Hval]. intros [= <- <-].
      split; [reflexivity|]. intros _ x. rewrite (Hval eq_refl). reflexivity.
Qed.

(** ** The string of an entity *)

Lemma append_cons (c : ascii) (a s : string) :
  String c a +:+ s = String c (a +:+ s).
Proof. reflexivity. Qed.

Lemma isSuffix_append (b t : string) : isSuffix t (b +:+ t) = true.
Proof.
  induction b as [|c b IH].
  - change (EmptyString +:+ t) with t.
    destruct t; simpl; rewrite ?String.eqb_refl, ?Ascii.eqb_refl; reflexivity.
  - rewrite append_cons. cbn [isSuffix]. rewrite IH. apply orb_true_r.
Qed.

Lemma append_suffix (a b s t : string) :
  a +:+ s = b +:+ t -> isSuffix s t = true \/ isSuffix t s = true.
Proof.
  revert b. induction a as [|c a IH]; intros [|d b] E.
  - change (s = t) in E. subst. left. apply (isSuffix_append EmptyString).
  - change (s = String d b +:+ t) in E. subst. right. apply isSuffix_append.
  - change (String c a +:+ s = t) in E. subst. left. apply isSuffix_append.
  - rewrite !append_cons in E. injection E as _ E. exact (IH b E).
Qed.

Lemma length_append (a s : string) :
  String.length (a +:+ s) = String.length a + String.length s.
Proof.
  induction a as [|c a IH]; [reflexivity|].
  rewrite append_cons. simpl. rewrite IH. reflexivity.
Qed.

Lemma append_same_tail (a b s : string) : a +:+ s = b +:+ s -> a = b.
Proof.
  revert b. induction a as [|c a IH]; intros [|d b] E.
  - reflexivity.
  - apply (f_equal String.length) in E. rewrite !length_append in E.
    simpl in E. lia.
  - apply (f_equal String.length) in E. rewrite !length_append in E.
    simpl in E. lia.
  - rewrite !append_cons in E. injection E as -> E. f_equal. exact (IH b E).
Qed.

(** X6.  [User.String] tells apart the entities whose type has a name: two
    such entities with the same string have the same type, name and locked
    flag, whatever the name contains.  A type without a name is written as
    the empty string, so that the string is the name followed by
    [" (Type: Locked:"], the flag and [")"]; hence it does not tell apart two
    entities that differ only in such types. *)
Theorem String_identifies (u1 u2 : User) (t1 t2 : UserType) (n : string) (k : bool) :
  (namedType (uType u1) -> namedType (uType u2) ->
   String_ u1 = String_ u2 -> u1 = u2)
  /\ (~ namedType t1 ->
      names t1 = ""
      /\ String_ (mkUser t1 n k) = n +:+ " (Type: Locked:" +:+ fmtBool k +:+ ")")
  /\ (~ namedType t1 -> ~ namedType t2 ->
      String_ (mkUser t1 n k) = String_ (mkUser t2 n k)).
Proof.
  split; [|split].
  - destruct u1 as [a1 n1 k1], u2 as [a2 n2 k2]. cbn [uType].
    intros N1 N2 E.
    change (n1 +:+ afterName (mkUser a1 n1 k1) = n2 +:+ afterName (mkUser a2 n2 k2))
      in E.
    pose proof (append_suffix _ _ _ _ E) as Hsuf.
    destruct N1 as [-> | [-> | ->]], N2 as [-> | [-> | ->]], k1, k2;
      first [ apply append_same_tail in E; subst; reflexivity
            | vm_compute in Hsuf; destruct Hsuf; discriminate ].
  - intros N1. unfold String_, names, namedType in *. cbn [uType uName uLocked].
    destruct (Z.eqb_spec t1 Personal), (Z.eqb_spec t1 Admin),
      (Z.eqb_spec t1 SuperAdmin); first [tauto | split; reflexivity].
  - intros N1 N2. unfold String_, names, namedType in *. cbn [uType uName uLocked].
    destruct (Z.eqb_spec t1 Personal), (Z.eqb_spec t1 Admin),
      (Z.eqb_spec t1 SuperAdmin), (Z.eqb_spec t2 Personal), (Z.eqb_spec t2 Admin),
      (Z.eqb_spec t2 SuperAdmin); first [reflexivity | tauto].
Qed.

(** ** The whole program *)

Lemma bind_Returned {A B : Type} (m : M A) (k : A -> M B) (w w' : World) (a : A) :
  m w = Returned a w' -> bind m k w = k a w'.
Proof. intros E. unfold bind. rewrite E. reflexivity. Qed.

Lemma new_fresh (x : User) (w : World) :
  exists p : ptr,
    users (state w) !! p = None
    /\ new x w = Returned p (mkWorld (mkState (<[p := x]> (users (state w)))
                                               (stdout (state w)))
                                      (calls w)).
Proof.
  exists (fresh (dom (users (state w)))). split; [|reflexivity].
  apply not_elem_of_dom, is_fresh.
Qed.

Lemma fmtUser_value (user : ptr) (x : User) (w : World) :
  users (state w) !! user = Some x -> fmtUser user w = Returned (String_ x) w.
Proof. intros Hx. unfold fmtUser. rewrite Hx. reflexivity. Qed.

Lemma printIfError_denied spec name handler user x w :
  users (state w) !! user = Some x ->
  IsSatisfiedBy spec x = false ->
  printIfError (checkAccess spec name handler) user w =
  Returned tt
    (mkWorld
       (mkState (users (state w))
          (stdout (state w)
           ++ [(name +:+ ": access denied, user: " +:+ String_ x) +:+ newline]))
       (calls w)).
Proof.
  intros Hx Hs. unfold printIfError.
  rewrite (bind_Returned _ _ _ _ _ (checkAccess_denied spec name handler _ _ _ Hx Hs)).
  reflexivity.
Qed.

Lemma printIfError_granted spec name handler user x w :
  users (state w) !! user = Some x ->
  IsSatisfiedBy spec x = true ->
  printIfError (checkAccess spec name handler) user w =
  Returned tt (mkWorld (handler (grantedState name x (state w))) (S (calls w))).
Proof.
  intros Hx Hs. unfold printIfError.
  rewrite (bind_Returned _ _ _ _ _ (checkAccess_granted spec name handler _ _ _ Hx Hs)).
  reflexivity.
Qed.

(** X7.  From any world, [main] runs to its end without a panic: it allocates
    its four entities at four distinct addresses that were free, leaves every
    entity that existed as it was, appends its nine lines to the console in
    order, and calls a handler exactly twice. *)
Theorem main_runs (w : World) :
  exists user supAdmin pBooFooLocked pBooFoo : ptr,
    NoDup [user; supAdmin; pBooFooLocked; pBooFoo]
    /\ Forall (fun p => users (state w) !! p = None)
              [user; supAdmin; pBooFooLocked; pBooFoo]
    /\ main w =
       Returned tt
         (mkWorld
            (mkState
               (<[pBooFoo := BooFoo]> (<[pBooFooLocked := BooFooLocked]>
                  (<[supAdmin := SuperAlex]> (<[user := Alex]> (users (state w))))))
               (stdout (state w) ++ mainLines))
            (calls w + 2)).
Proof.
  destruct w as [[m out] n]. cbn [state users stdout calls].
  destruct (new_fresh Alex (mkWorld (mkState m out) n)) as (p1 & F1 & E1).
  cbn [state users stdout calls] in F1, E1.
  destruct (new_fresh SuperAlex (mkWorld (mkState (<[p1 := Alex]> m) out) n))
    as (p2 & F2 & E2).
  cbn [state users stdout calls] in F2, E2.
  apply lookup_insert_None in F2 as [F2 N12].
  set (m2 := <[p2 := SuperAlex]> (<[p1 := Alex]> m)) in *.
  assert (L1 : m2 !! p1 = Some Alex).
  { unfold m2. rewrite lookup_insert_ne by congruence. apply lookup_insert_eq. }
  assert (L2 : m2 !! p2 = Some SuperAlex) by apply lookup_insert_eq.
  exists p1, p2.
  unfold main, UserIsSatisfiedBy_mem.
  rewrite (bind_Returned _ _ _ _ _ E1), (bind_Returned _ _ _ _ _ E2).
  clear E1 E2.
  erewrite bind_Returned by (apply fmtUser_value; exact L1).
  erewrite bind_Returned by (apply IsSatisfiedBy_mem_value; exact L1).
  erewrite bind_Returned by reflexivity.
  cbn [state users stdout calls].
  erewrite bind_Returned by (apply fmtUser_value; exact L1).
  erewrite bind_Returned by (apply IsSatisfiedBy_mem_value; exact L1).
  erewrite bind_Returned by reflexivity.
  cbn [state users stdout calls].
  erewrite bind_Returned by (apply printIfError_denied; [exact L1 | reflexivity]).
  cbn [state users stdout calls].
  erewrite bind_Returned by (apply printIfError_granted; [exact L2 | reflexivity]).
  cbv [Println grantedState]. cbn [state users stdout calls].
  match goal with
  | |- context [bind (new ?x) _ ?W] =>
      destruct (new_fresh x W) as (p3 & F3 & E3)
  end.
  cbn [state users stdout calls] in F3, E3.
  rewrite (bind_Returned _ _ _ _ _ E3). clear E3.
  match goal with
  | |- context [bind (new ?x) _ ?W] =>
      destruct (new_fresh x W) as (p4 & F4 & E4)
  end.
  cbn [state users stdout calls] in F4, E4.
  rewrite (bind_Returned _ _ _ _ _ E4). clear E4.
  apply lookup_insert_None in F4 as [F4 N34].
  unfold m2 in F3, F4.
  apply lookup_insert_None in F3 as [F3 N23], F4 as [F4 N24].
  apply lookup_insert_None in F3 as [F3 N13], F4 as [F4 N14].
  set (m4 := <[p4 := _]> (<[p3 := _]> m2)) in *.
  assert (K1 : m4 !! p1 = Some Alex).
  { unfold m4. rewrite !lookup_insert_ne by congruence. exact L1. }
  assert (K3 : m4 !! p3 = Some BooFooLocked).
  { unfold m4. rewrite lookup_insert_ne by congruence. apply lookup_insert_eq. }
  assert (K4 : m4 !! p4 = Some BooFoo) by apply lookup_insert_eq.
  exists p3, p4.
  erewrite bind_Returned by (apply printIfError_denied; [exact K1 | reflexivity]).
  cbn [state users stdout calls].
  erewrite bind_Returned by (apply printIfError_denied; [exact K3 | reflexivity]).
  cbn [state users stdout calls].
  erewrite printIfError_granted by (first [exact K4 | reflexivity]).
  cbv [Println grantedState]. cbn [state users stdout calls].
  split; [|split].
  - repeat (apply NoDup_cons; split;
              [rewrite ?not_elem_of_cons; auto using not_elem_of_nil|]).
    apply NoDup_nil_2.
  - repeat (constructor; [assumption|]). constructor.
  - rewrite <- !app_assoc. replace (n + 2) with (S (S n)) by lia. reflexivity.
Qed.

End Specification.

(** * The program on concrete inputs *)

(** The console after [main], write by write, and the two handler calls. *)
Example main_output :
  main asciiOnly initialWorld =
  Returned tt
    (mkWorld
       (mkState mainUsers
          [ "Alex (Type:ADMIN Locked:false): Any Admin? true" +:+ newline;
            "Alex (Type:ADMIN Locked:false): Any SuperAdmin? false" +:+ newline;
            "high level: access denied, user: Alex (Type:ADMIN Locked:false)" +:+ newline;
            "high level: access granted, user: SuperAlex (Type:SUPER ADMIN Locked:false)"
              +:+ newline;
            "execute handlerSecret" +:+ newline;
            "onlyValidUser: access denied, user: Alex (Type:ADMIN Locked:false)" +:+ newline;
            "onlyValidUser: access denied, user: BooFooLocked (Type:PERSONAL Locked:true)"
              +:+ newline;
            "onlyValidUser: access granted, user: BooFoo (Type:PERSONAL Locked:false)"
              +:+ newline;
            "execute handlerOnlyValidUser" +:+ newline ])
       2).
Proof. vm_compute. reflexivity. Qed.

(** An entity whose type is none of the three constants passes
    [ValidNameNotAdmin]; a name of four bytes does not. *)
Example ValidNameNotAdmin_other_type :
  IsSatisfiedBy asciiOnly ValidNameNotAdmin (mkUser 7%Z "Guest" false) = true
  /\ IsSatisfiedBy asciiOnly ValidNameNotAdmin (mkUser 7%Z "Gues" false) = false.
Proof. split; reflexivity. Qed.

(** The [var] block is built bottom-up, and the object [ValidNameNotAdmin]
    stands for the tree of the value layer. *)
Example globals_built :
  builtBottomUpb globals = true
  /\ treeOf 12 globals ValidNameNotAdmin_ref = Some ValidNameNotAdmin.
Proof. split; reflexivity. Qed.

(** A nil interface among the children is a panic, not a boolean. *)
Example nil_child_panics :
  IsSatisfiedBy_heap asciiOnly 5 [NotObject 1] 0 Alex = Panic.
Proof. reflexivity. Qed.

(** A gate applied to the nil pointer: a leaf rule panics on the field it
    reads; the empty conjunction reads nothing, and the gate grants access to
    ["<nil>"]. *)
Example nil_user :
  checkAccess asciiOnly IsSuperAdmin "high level" (Println "execute handlerSecret")
    5%positive mainWorld = Panicked
  /\ checkAccess asciiOnly (And []) "open" (Println "execute") 5%positive mainWorld
     = Returned None
         (mkWorld
            (mkState mainUsers
               ["open: access granted, user: <nil>" +:+ newline; "execute" +:+ newline])
            1).
Proof. split; vm_compute; reflexivity. Qed.

(** An object that reaches itself never returns: whatever the fuel, the
    evaluation runs out of it. *)
Example cycle_runs_out_of_fuel (fuel : nat) (u : User) :
  IsSatisfiedBy_heap asciiOnly fuel [NotObject 0] 0 u = OutOfFuel.
Proof.
  induction fuel as [|fuel IH]; [reflexivity|].
  change (IsSatisfiedBy_heap asciiOnly (S fuel) [NotObject 0] 0 u)
    with (match IsSatisfiedBy_heap asciiOnly fuel [NotObject 0] 0 u with
          | Value ok => Value (negb ok)
          | stuck => stuck
          end).
  rewrite IH. reflexivity.
Qed.

(** ** The theorems at the entities of [main] *)

Lemma checkAccess_gate_witness :
  checkAccess asciiOnly ValidNameNotAdmin "onlyValidUser"
    (Println "execute handlerOnlyValidUser") 3%positive mainWorld
  = Returned
      (Some "onlyValidUser: access denied, user: BooFooLocked (Type:PERSONAL Locked:true)")
      mainWorld
  /\ checkAccess asciiOnly ValidNameNotAdmin "onlyValidUser"
       (Println "execute handlerOnlyValidUser") 4%positive mainWorld
     = Returned None
         (mkWorld
            (Println "execute handlerOnlyValidUser"
               (grantedState "onlyValidUser" BooFoo (state mainWorld)))
            1).
Proof.
  split.
  - apply (proj1 (checkAccess_gate asciiOnly ValidNameNotAdmin "onlyValidUser"
                    (Println "execute handlerOnlyValidUser") 3%positive BooFooLocked
                    mainWorld eq_refl)).
    reflexivity.
  - apply (proj2 (checkAccess_gate asciiOnly ValidNameNotAdmin "onlyValidUser"
                    (Println "execute handlerOnlyValidUser") 4%positive BooFoo
                    mainWorld eq_refl)).
    reflexivity.
Defined.

Lemma Admin_Alex_example_witness :
  checkAccess asciiOnly IsSuperAdmin "high level" (Println "execute handlerSecret")
    1%positive mainWorld
  = Returned (Some "high level: access denied, user: Alex (Type:ADMIN Locked:false)")
      mainWorld
  /\ checkAccess asciiOnly IsSuperAdmin "high level" (Println "execute handlerSecret")
       2%positive mainWorld
     = Returned None
         (mkWorld
            (Println "execute handlerSecret"
               (grantedState "high level" SuperAlex (state mainWorld)))
            1).
Proof.
  destruct (Admin_Alex_example asciiOnly) as (_ & _ & Hdenied & Hgranted).
  split.
  - apply (Hdenied "high level" (Println "execute handlerSecret") 1%positive mainWorld).
    reflexivity.
  - apply (Hgranted "high level" (Println "execute handlerSecret") 2%positive mainWorld
             SuperAlex); reflexivity.
Defined.

Lemma IsSatisfiedBy_terminates_witness :
  exists b : bool,
    (forall fuel, ValidNameNotAdmin_ref < fuel ->
       IsSatisfiedBy_heap asciiOnly fuel globals ValidNameNotAdmin_ref BooFoo = Value b)
    /\ exists t : SpecificationUser,
         treeOf (S ValidNameNotAdmin_ref) globals ValidNameNotAdmin_ref = Some t
         /\ IsSatisfiedBy asciiOnly t BooFoo = b
         /\ forall user w, users (state w) !! user = Some BooFoo ->
                           IsSatisfiedBy_mem asciiOnly t user w = Returned b w.
Proof.
  apply (IsSatisfiedBy_terminates asciiOnly globals ValidNameNotAdmin_ref BooFoo).
  - apply builtBottomUpb_sound. reflexivity.
  - unfold ValidNameNotAdmin_ref. simpl. lia.
Defined.

Lemma entity_unchanged_witness :
  IsSatisfiedBy_mem asciiOnly ValidNameNotAdmin 4%positive mainWorld
  = Returned true mainWorld
  /\ exists w',
       checkAccess asciiOnly ValidNameNotAdmin "onlyValidUser"
         (Println "execute handlerOnlyValidUser") 4%positive mainWorld
       = Returned None w'
       /\ users (state w') !! 4%positive = Some BooFoo.
Proof.
  destruct (entity_unchanged asciiOnly ValidNameNotAdmin "onlyValidUser"
              (Println "execute handlerOnlyValidUser") 4%positive BooFoo mainWorld
              eq_refl) as (Heval & _ & Hgranted).
  split; [exact Heval|].
  destruct (Hgranted eq_refl) as (w' & Hgate & _ & Hsame).
  exists w'. split; [exact Hgate|]. apply Hsame. reflexivity.
Defined.

(** ** A handler that writes the entity

    C9 as stated, for every gate, fails: [checkAccess] runs whatever handler it
    was given, and a handler that captured the pointer writes the entity.
    Here the gate grants access to [BooFoo] and returns [nil], and the entity
    is locked afterwards. *)

Lemma gate_handler_writes_entity :
  users (state mainWorld) !! 4%positive = Some BooFoo
  /\ IsSatisfiedBy asciiOnly ValidNameNotAdmin BooFoo = true
  /\ checkAccess asciiOnly ValidNameNotAdmin "onlyValidUser" (lockUser 4%positive)
       4%positive mainWorld
     = Returned None
         (mkWorld
            (mkState (<[4%positive := mkUser Personal "BooFoo" true]> mainUsers)
               ["onlyValidUser: access granted, user: BooFoo (Type:PERSONAL Locked:false)"
                  +:+ newline])
            1)
  /\ (<[4%positive := mkUser Personal "BooFoo" true]> mainUsers) !! 4%positive
     <> Some BooFoo.
Proof.
  split; [reflexivity|]. split; [reflexivity|]. split.
  - vm_compute. reflexivity.
  - vm_compute. discriminate.
Qed.

(** ** The further properties on the data of the program *)

Lemma And_Or_Permutation_witness :
  IsSatisfiedBy asciiOnly (And [Not IsNameShort4; NotLocked; Not AnyAdmin]) BooFoo
  = IsSatisfiedBy asciiOnly ValidNameNotAdmin BooFoo
  /\ IsSatisfiedBy asciiOnly (Or [Not IsNameShort4; NotLocked; Not AnyAdmin]) BooFoo
     = IsSatisfiedBy asciiOnly (Or [Not AnyAdmin; NotLocked; Not IsNameShort4]) BooFoo.
Proof.
  apply (And_Or_Permutation asciiOnly
           [Not IsNameShort4; NotLocked; Not AnyAdmin]
           [Not AnyAdmin; NotLocked; Not IsNameShort4] BooFoo).
  apply Permutation_sym.
  apply (Permutation_rev [Not AnyAdmin; NotLocked; Not IsNameShort4]).
Defined.

Lemma early_return_witness :
  IsSatisfiedBy_heap asciiOnly 2
    [TypeObject Admin; AndObject [3; 0; 7]; OrObject [0; 2]; TypeObject Personal]
    1 BooFoo = Value false
  /\ IsSatisfiedBy_heap asciiOnly 2
       [TypeObject Admin; AndObject [3; 0; 7]; OrObject [0; 2]; TypeObject Personal]
       2 Alex = Value true.
Proof.
  split.
  - apply (proj1 (early_return asciiOnly 1
                    [TypeObject Admin; AndObject [3; 0; 7]; OrObject [0; 2];
                     TypeObject Personal]
                    1 0 [3] [7] BooFoo)).
    + reflexivity.
    + constructor; [reflexivity | constructor].
    + reflexivity.
  - apply (proj2 (early_return asciiOnly 1
                    [TypeObject Admin; AndObject [3; 0; 7]; OrObject [0; 2];
                     TypeObject Personal]
                    2 0 [] [2] Alex)).
    + reflexivity.
    + constructor.
    + reflexivity.
Defined.

Lemma String_identifies_witness :
  Alex = mkUser Admin "Alex" false
  /\ String_ (mkUser 3%Z "Guest" true) = "Guest (Type: Locked:true)"
  /\ String_ (mkUser 3%Z "Guest" true) = String_ (mkUser 7%Z "Guest" true).
Proof.
  split; [|split].
  - apply (proj1 (String_identifies asciiOnly Alex (mkUser Admin "Alex" false)
                    3%Z 7%Z "Guest" true)).
    + right; left; reflexivity.
    + right; left; reflexivity.
    + reflexivity.
  - apply (proj1 (proj2 (String_identifies asciiOnly Alex Alex 3%Z 7%Z "Guest" true))).
    intros [H | [H | H]]; discriminate H.
  - apply (proj2 (proj2 (String_identifies asciiOnly Alex Alex 3%Z 7%Z "Guest" true))).
    + intros [H | [H | H]]; discriminate H.
    + intros [H | [H | H]]; discriminate H.
Defined.

Lemma Name_equivalence_witness :
  IsSatisfiedBy asciiOnly (Name asciiOnly "ALEX") (mkUser Admin "alex" true) = true.
Proof.
  apply (proj2 (proj2 (Name_equivalence asciiOnly "ALEX" "Alex" "alex"
                         Personal Admin false true Alex)));
    reflexivity.
Defined.

Lemma NameShort_thresholds_witness :
  IsSatisfiedBy asciiOnly (NameShort 10%Z) Alex = true
  /\ IsSatisfiedBy asciiOnly (NameShort (-1)%Z) Alex = false.
Proof.
  split.
  - apply (proj1 (NameShort_thresholds asciiOnly 4%Z 10%Z Alex)); [lia | reflexivity].
  - apply (proj1 (proj2 (NameShort_thresholds asciiOnly (-1)%Z 0%Z Alex))). lia.
Defined.

Lemma alloc_frame_witness :
  IsSatisfiedBy_heap asciiOnly 12
    (fst (alloc (NotObject ValidNameNotAdmin_ref) globals)) ValidNameNotAdmin_ref BooFoo
  = IsSatisfiedBy_heap asciiOnly 12 globals ValidNameNotAdmin_ref BooFoo.
Proof.
  apply (alloc_frame asciiOnly globals (NotObject ValidNameNotAdmin_ref) 12
           ValidNameNotAdmin_ref BooFoo).
  - apply builtBottomUpb_sound. reflexivity.
  - unfold ValidNameNotAdmin_ref. simpl. lia.
Defined.

Lemma IsSatisfiedBy_mem_returns_witness :
  mainWorld = mainWorld
  /\ forall x : User, IsSatisfiedBy asciiOnly (Or [And []; IsAdmin]) x = true.
Proof.
  destruct (IsSatisfiedBy_mem_returns asciiOnly (Or [And []; IsAdmin]) 5%positive
              mainWorld mainWorld true eq_refl) as [Hw Hall].
  split; [exact Hw|]. apply Hall. reflexivity.
Defined.

Lemma constructors_build_trees_witness :
  treeOf 13 (fst (Not_heap ValidNameNotAdmin_ref globals))
    (snd (Not_heap ValidNameNotAdmin_ref globals))
  = Some (Not ValidNameNotAdmin)
  /\ treeOf 13 (fst (Name_heap asciiOnly "Alex" globals))
       (snd (Name_heap asciiOnly "Alex" globals))
     = Some (Name asciiOnly "Alex").
Proof.
  destruct (constructors_build_trees asciiOnly globals [] ValidNameNotAdmin_ref 0%Z
              "Alex" (builtBottomUpb_sound globals eq_refl))
    as (_ & HNot & _ & HName).
  split; [|exact HName].
  destruct HNot as (t & Ht & Hnew).
  - unfold ValidNameNotAdmin_ref. simpl. lia.
  - vm_compute in Ht. injection Ht as <-. exact Hnew.
Defined.

(** * Names that are not ASCII *)

Lemma DecodeRuneInString_width (c : ascii) (rest : string) :
  1 <= snd (DecodeRuneInString (String c rest)).
Proof.
  unfold DecodeRuneInString.
  repeat match goal with
         | |- context [if ?b then _ else _] => destruct b
         | |- context [match ?s with EmptyString => _ | String _ _ => _ end] =>
             destruct s
         end; simpl; lia.
Qed.

Lemma dropBytes_length (n : nat) (s : string) :
  String.length (dropBytes n s) = String.length s - n.
Proof.
  revert s. induction n as [|n IH]; intros [|c s]; simpl; try lia. apply IH.
Qed.

(** The loops of [strings.Map] end before their fuel does: any fuel from the
    length of the string on gives the same result. *)
Lemma Map_fuel (mapping : Z -> Z) (n : nat) :
  forall (rest : string) (i fuel1 fuel2 : nat),
    String.length rest <= n -> n <= fuel1 -> n <= fuel2 ->
    firstChange fuel1 mapping i rest = firstChange fuel2 mapping i rest
    /\ mapRest fuel1 mapping rest = mapRest fuel2 mapping rest.
Proof.
  induction n as [|n IH]; intros rest i fuel1 fuel2 Hlen H1 H2.
  - destruct rest; [|simpl in Hlen; lia].
    destruct fuel1, fuel2; split; reflexivity.
  - destruct rest as [|c rest]; [destruct fuel1, fuel2; split; reflexivity|].
    destruct fuel1 as [|fuel1]; [lia|]. destruct fuel2 as [|fuel2]; [lia|].
    pose proof (DecodeRuneInString_width c rest) as Hw.
    assert (Hdrop : String.length
                      (dropBytes (snd (DecodeRuneInString (String c rest)))
                         (String c rest)) <= n).
    { rewrite dropBytes_length. cbn [String.length] in Hlen |- *. lia. }
    cbn [firstChange mapRest].
    destruct (IH _ (i + snd (DecodeRuneInString (String c rest))) fuel1 fuel2 Hdrop)
      as [HF HM]; [lia | lia |].
    rewrite HF, HM. split; reflexivity.
Qed.

Lemma DecodeRuneInString_high_byte (a : ascii) :
  (128 <=? nat_of_ascii a)%nat = true ->
  DecodeRuneInString (String a EmptyString) = (RuneError, 1).
Proof.
  destruct a as [[] [] [] [] [] [] [] []]; intros H;
    first [discriminate H | vm_compute; reflexivity].
Qed.

Lemma Map_high_byte (mapping : Z -> Z) (a : ascii) :
  (128 <=? nat_of_ascii a)%nat = true ->
  Map mapping (String a EmptyString) = writeMapped (mapping RuneError) +:+ EmptyString.
Proof.
  intros H. unfold Map. cbn [String.length firstChange mapRest].
  rewrite (DecodeRuneInString_high_byte a H). cbn [fst snd].
  change ((RuneError =? RuneError)%Z) with true.
  cbn [negb]. rewrite andb_false_r. reflexivity.
Qed.

(** C5, as the program has it.  [Name(s)] is satisfied by [u] exactly when
    [strings.ToLower] gives the same bytes for [u]'s name and for [s].  For
    ASCII names that is equality up to the case of the letters: a rule made
    with "Alex" matches the name "alex" and a rule made with "alex" matches
    the name "Alex".  It is not equality up to case for every name:
    [strings.ToLower] writes U+FFFD for a byte that is not valid UTF-8, so a
    rule made from one byte at or above 0x80 matches every name of one such
    byte, whatever [unicode.ToLower] is. *)
Theorem Name_lower_case_forms (lower : Z -> Z) (s : string) (u : User)
  (a b : ascii) (t : UserType) (k : bool) :
  (IsSatisfiedBy (Map lower) (Name (Map lower) s) u = true <->
   ToLower (Map lower) (uName u) = ToLower (Map lower) s)
  /\ (isASCII s = true -> isASCII (uName u) = true ->
      (IsSatisfiedBy (Map lower) (Name (Map lower) s) u = true <->
       equalIgnoreCase (uName u) s = true))
  /\ (uName u = "alex" -> IsSatisfiedBy (Map lower) (Name (Map lower) "Alex") u = true)
  /\ (uName u = "Alex" -> IsSatisfiedBy (Map lower) (Name (Map lower) "alex") u = true)
  /\ ((128 <= nat_of_ascii a)%nat -> (128 <= nat_of_ascii b)%nat ->
      IsSatisfiedBy (Map lower) (Name (Map lower) (String a EmptyString))
        (mkUser t (String b EmptyString) k) = true).
Proof.
  destruct (Name_IsSatisfiedBy (Map lower) s u) as (H1 & H2 & H3 & H4).
  split; [exact H1|]. split; [exact H2|]. split; [exact H3|]. split; [exact H4|].
  intros Ha Hb. apply Nat.leb_le in Ha, Hb.
  assert (Hhigh : forall c, (128 <=? nat_of_ascii c)%nat = true ->
                            isASCII (String c EmptyString) = false).
  { intros c Hc. cbn [isASCII]. unfold RuneSelf.
    apply Nat.leb_le in Hc. apply andb_false_intro1, Nat.ltb_ge. exact Hc. }
  cbn [IsSatisfiedBy Name uName]. apply String.eqb_eq.
  unfold ToLower. rewrite (Hhigh a Ha), (Hhigh b Hb).
  rewrite (Map_high_byte lower a Ha), (Map_high_byte lower b Hb). reflexivity.
Qed.

(** A rule made from the byte [0xff] is satisfied by the entity named by the
    byte [0xfe], although the two names differ and are not equal up to
    case: both lower to U+FFFD. *)
Lemma Name_matches_another_byte :
  IsSatisfiedBy (Map lowerLatin) (Name (Map lowerLatin) xFF) (mkUser Personal xFE false)
  = true
  /\ equalIgnoreCase xFE xFF = false
  /\ xFE <> xFF
  /\ ToLower (Map lowerLatin) xFF = AppendRune RuneError
  /\ ToLower (Map lowerLatin) xFE = AppendRune RuneError.
Proof.
  split; [vm_compute; reflexivity|]. split; [vm_compute; reflexivity|].
  split; [discriminate|]. split; vm_compute; reflexivity.
Qed.

Lemma Name_lower_case_forms_witness :
  IsSatisfiedBy (Map lowerLatin) (Name (Map lowerLatin) "Alex")
    (mkUser Personal "aLEX" false) = true
  /\ IsSatisfiedBy (Map lowerLatin) (Name (Map lowerLatin) "Alex")
       (mkUser Personal "alex" false) = true
  /\ IsSatisfiedBy (Map lowerLatin) (Name (Map lowerLatin) "alex")
       (mkUser Personal "Alex" false) = true
  /\ IsSatisfiedBy (Map lowerLatin) (Name (Map lowerLatin) xFF)
       (mkUser Admin xFE true) = true.
Proof.
  pose proof (Name_lower_case_forms lowerLatin "Alex" (mkUser Personal "aLEX" false)
                (ascii_of_nat 255) (ascii_of_nat 254) Admin true)
    as (_ & HA & _ & _ & HB).
  pose proof (Name_lower_case_forms lowerLatin "Alex" (mkUser Personal "alex" false)
                (ascii_of_nat 255) (ascii_of_nat 254) Admin true)
    as (_ & _ & Hl & _ & _).
  pose proof (Name_lower_case_forms lowerLatin "Alex" (mkUser Personal "Alex" false)
                (ascii_of_nat 255) (ascii_of_nat 254) Admin true)
    as (_ & _ & _ & Hu & _).
  split; [|split; [|split]].
  - apply HA; reflexivity.
  - apply Hl. reflexivity.
  - apply Hu. reflexivity.
  - apply HB; vm_compute; lia.
Defined.
